(** * Shadow synchronisation and job-status marshalling of the AWS IoT device SDK

  A shallow embedding of
  - [JobStatusMarshaller::ToString] / [FromString]   (source/jobs/JobStatus.cpp),
  - the generated codecs of [DeleteShadowRequest] and
    [UpdateJobExecutionSubscriptionRequest],
  - the shadow-sync sample: [s_changeShadowValue], the subscription
    acknowledgement handlers, [onDeltaUpdated], [onUpdateShadowAccepted],
    [onUpdateShadowRejected] and the part of [main] that joins on the three
    subscriptions and then reads desired values,
  together with the version guard and the correlation registry that the
  specification describes. *)

From Stdlib Require Import ZArith Lia.
From stdpp Require Import base tactics option list strings pretty gmap.

#[local] Set Warnings "-register-all".

Local Open Scope string_scope.
Local Open Scope Z_scope.

(* ===================================================================== *)
(** ** JSON documents (Aws::Crt::JsonObject / JsonView)                   *)
(* ===================================================================== *)

Module Json.

(** A cJSON tree.  Objects keep their members in insertion order. *)
Inductive JsonValue : Type :=
| JNull
| JBool (b : bool)
| JNumber (n : Z)
| JString (s : string)
| JObject (members : list (string * JsonValue)).

(** A default-constructed [JsonObject] owns no value yet; the first
    [With...] call turns it into an object without members before it adds
    its own.  The sources only ever touch such an object through
    [With...], so it is represented by the object without members. *)
Definition JsonObject_new : JsonValue := JObject [].

Definition members_of (v : JsonValue) : list (string * JsonValue) :=
  match v with
  | JObject ms => ms
  | _ => []
  end.

(** Add-or-replace of one member, as the [With...] family does. *)
Fixpoint set_member (key : string) (v : JsonValue)
         (ms : list (string * JsonValue)) : list (string * JsonValue) :=
  match ms with
  | [] => [(key, v)]
  | (k, x) :: rest =>
      if decide (k = key) then (key, v) :: rest
      else (k, x) :: set_member key v rest
  end.

Definition WithString (key value : string) (obj : JsonValue) : JsonValue :=
  JObject (set_member key (JString value) (members_of obj)).

Definition WithObject (key : string) (value : JsonValue) (obj : JsonValue)
  : JsonValue :=
  JObject (set_member key value (members_of obj)).

(** Plain member lookup, used to read back what a request carries. *)
Fixpoint find_member (key : string) (ms : list (string * JsonValue))
  : option JsonValue :=
  match ms with
  | [] => None
  | (k, x) :: rest => if decide (k = key) then Some x else find_member key rest
  end.

Definition member (key : string) (v : JsonValue) : option JsonValue :=
  find_member key (members_of v).

Definition is_null (v : JsonValue) : bool :=
  match v with JNull => true | _ => false end.

End Json.

(* ===================================================================== *)
(** ** JobStatusMarshaller (source/jobs/JobStatus.cpp)                    *)
(* ===================================================================== *)

Module JobStatusMarshaller.

(** The seven enumerators of [enum class JobStatus]. *)
Inductive JobStatus : Type :=
| QUEUED | IN_PROGRESS | FAILED | SUCCESS | CANCELED | REJECTED | REMOVED.

Definition all_statuses : list JobStatus :=
  [QUEUED; IN_PROGRESS; FAILED; SUCCESS; CANCELED; REJECTED; REMOVED].

(** What a call that may run into [assert(0)] does: it returns a named
    enumerator, or it reaches the assertion; [ndebug_value] is the integer
    that is cast to the result type when assertions are compiled out. *)
Inductive Outcome : Type :=
| Returned (s : JobStatus)
| AssertionFailed (ndebug_value : Z).

Definition asserts (o : Outcome) : bool :=
  match o with AssertionFailed _ => true | Returned _ => false end.

(** The [switch] of [ToString]; its [default:] arm is not reachable from
    the seven enumerators. *)
Definition ToString (status : JobStatus) : string :=
  match status with
  | QUEUED => "QUEUED"
  | IN_PROGRESS => "IN_PROGRESS"
  | FAILED => "FAILED"
  | SUCCESS => "SUCCESS"
  | CANCELED => "CANCELED"
  | REJECTED => "REJECTED"
  | REMOVED => "REMOVED"
  end.

Definition recognized_names : list string := ToString <$> all_statuses.

Section WithHash.

(** [Aws::Crt::HashString], a [size_t]-valued hash of a C string.  It is
    a function of the CRT and is taken as given. *)
Variable HashString : string → Z.

Definition QUEUED_HASH : Z := HashString "QUEUED".
Definition IN_PROGRESS_HASH : Z := HashString "IN_PROGRESS".
Definition FAILED_HASH : Z := HashString "FAILED".
Definition SUCCESS_HASH : Z := HashString "SUCCESS".
Definition CANCELED_HASH : Z := HashString "CANCELED".
Definition REJECTED_HASH : Z := HashString "REJECTED".
Definition REMOVED_HASH : Z := HashString "REMOVED".

Definition status_hashes : list Z :=
    [QUEUED_HASH; IN_PROGRESS_HASH; FAILED_HASH; SUCCESS_HASH;
     CANCELED_HASH; REJECTED_HASH; REMOVED_HASH].

Definition FromString (str : string) : Outcome :=
    let hash := HashString str in
    if hash =? QUEUED_HASH then Returned QUEUED
    else if hash =? IN_PROGRESS_HASH then Returned IN_PROGRESS
    else if hash =? FAILED_HASH then Returned FAILED
    else if hash =? SUCCESS_HASH then Returned SUCCESS
    else if hash =? CANCELED_HASH then Returned CANCELED
    else if hash =? REJECTED_HASH then Returned REJECTED
    else if hash =? REMOVED_HASH then Returned REMOVED
    else AssertionFailed (-1).

End WithHash.

(** A concrete 64-bit string hash (Bernstein's multiply-by-33), used to
    run [FromString] on concrete strings. *)
Definition hash_step (h : Z) (c : Ascii.ascii) : Z :=
  (h * 33 + Z.of_N (Ascii.N_of_ascii c)) mod 2 ^ 64.

Fixpoint hash_from (h : Z) (s : string) : Z :=
  match s with
  | EmptyString => h
  | String c rest => hash_from (hash_step h c) rest
  end.

Definition bernstein_hash (s : string) : Z := hash_from 5381 s.

End JobStatusMarshaller.


(* ===================================================================== *)
(** ** Generated request types whose codec is empty                       *)
(* ===================================================================== *)

Module EmptyCodec.
Import Json.

Section Request.

(** The request class: [DeleteShadowRequest] (Iotshadow) or
    [UpdateJobExecutionSubscriptionRequest] (Iotjobs).  The headers that
    declare their members are not part of the sources at hand, so the class
    and its default-constructed value are taken as given. *)
Variable Request : Type.
Variable Request_default : Request.

(** [void T::LoadFromObject(T &val, const JsonView &doc) {}] *)
Definition LoadFromObject (val : Request) (doc : JsonValue) : Request := val.

(** [void T::SerializeToObject(JsonObject &object) const {}] *)
Definition SerializeToObject (self : Request) (object : JsonValue) : JsonValue :=
  object.

(** The constructor from a [JsonView]: it calls [LoadFromObject] on the
    freshly default-initialised object. *)
Definition from_JsonView (doc : JsonValue) : Request :=
  LoadFromObject Request_default doc.

(** Assignment from a [JsonView]: the object becomes the one constructed
    from the document. *)
Definition assign_JsonView (self : Request) (doc : JsonValue) : Request :=
  from_JsonView doc.

(** Encoding writes a value into a fresh document, decoding constructs a
    value from a document. *)
Definition encode (value : Request) : JsonValue :=
  SerializeToObject value JsonObject_new.

Definition decode (doc : JsonValue) : Request := from_JsonView doc.

End Request.

(** An instance of the request class.  Its header is not part of the
    sources at hand; the one optional member is the routing member that the
    sample sets on the shadow requests it builds
    ([shadowDeltaUpdatedRequest.ThingName = thingName],
    [updateShadowSubscriptionRequest.ThingName = thingName]). *)
Record DeleteShadowRequest : Type := MkDeleteShadowRequest {
  ThingName : option string
}.

Definition DeleteShadowRequest_default : DeleteShadowRequest :=
  {| ThingName := None |}.

End EmptyCodec.

(* ===================================================================== *)
(** ** Version guard                                                      *)
(* ===================================================================== *)

Module VersionGuard.

Inductive Verdict : Type := Advance | StaleIgnore.

(** Modelled from the spec: the sources contain no version comparison; this
    is the contract [accept(candidateVersion, currentVersion)] of the
    specification's version guard.  A version is a non-negative integer and
    the current version is absent until a first one has been observed. *)
Definition accept (candidateVersion : Z) (currentVersion : option Z) : Verdict :=
  match currentVersion with
  | None => Advance
  | Some current => if current <? candidateVersion then Advance else StaleIgnore
  end.

End VersionGuard.

(* ===================================================================== *)
(** ** Correlation registry                                               *)
(* ===================================================================== *)

Module CorrelationRegistry.

Section Registry.

Context {Token : Type} `{Countable Token}.
Variables Handler Outcome : Type.

(** Modelled from the spec: the client that dispatches inbound responses to
    handlers is not part of the sources at hand; this is the specification's
    registry of pending requests, keyed by correlation token.  An entry
    holds the time of issue and the handler to call. *)
Record PendingRequest : Type := MkPending {
  issuedAt : Z;
  resultHandler : Handler
}.

Inductive RegisterResult : Type :=
| Registered (reg : gmap Token PendingRequest)
| DuplicateToken.

(** Modelled from the spec: [register] fails with [DuplicateToken] when the
    token is already pending. *)
Definition register (token : Token) (now : Z) (handler : Handler)
    (reg : gmap Token PendingRequest) : RegisterResult :=
  match reg !! token with
  | Some _ => DuplicateToken
  | None => Registered (<[token := MkPending now handler]> reg)
  end.

(** Modelled from the spec: [resolve] looks the entry up, removes it and
    calls its handler once with the outcome; without an entry the resolution
    is dropped.  The result is the registry afterwards and the handler calls
    that were made. *)
Definition resolve (token : Token) (outcome : Outcome)
    (reg : gmap Token PendingRequest)
    : gmap Token PendingRequest * list (Handler * Outcome) :=
  match reg !! token with
  | Some p => (delete token reg, [(resultHandler p, outcome)])
  | None => (reg, [])
  end.

(** Modelled from the spec: [cancel] removes the entry and calls nothing. *)
Definition cancel (token : Token) (reg : gmap Token PendingRequest)
    : gmap Token PendingRequest :=
  delete token reg.

End Registry.

End CorrelationRegistry.

(* ===================================================================== *)
(** ** The shadow-sync sample                                             *)
(* ===================================================================== *)

Module ShadowSync.
Import Json.

(** [static const char *SHADOW_VALUE_DEFAULT = "off";] *)
Definition SHADOW_VALUE_DEFAULT : string := "off".

Definition AWS_OP_SUCCESS : Z := 0.

(** The characters that the format strings escape. *)
Definition LF : string := String (Ascii.ascii_of_nat 10) EmptyString.
Definition DQ : string := String (Ascii.ascii_of_nat 34) EmptyString.

Inductive UUID : Type := MkUUID (bits : N).

(** What the sample uses of the CRT: reading a [JsonView], the text of an
    error code, and the generator of UUIDs ([NewUUID n] is the [n]-th
    identifier that the generator hands out).  These are library functions
    and are taken as given. *)
Class Crt : Type := MkCrt {
  ValueExists : JsonValue → string → bool;
  GetJsonObject : JsonValue → string → JsonValue;
  IsNull : JsonValue → bool;
  GetString : JsonValue → string → string;
  ErrorDebugString : Z → string;
  NewUUID : nat → UUID
}.

(** [UpdateShadowRequest], with the members that the sample fills in. *)
Module UpdateShadowRequest.
Record t : Type := Mk {
  ClientToken : option UUID;
  State : option JsonValue;
  ThingName : option string
}.
End UpdateShadowRequest.

Module ShadowDeltaUpdatedEvent.
(** Modelled from the spec: the header that declares
    [ShadowDeltaUpdatedEvent] is not part of the sources at hand.  [State]
    is the member that [onDeltaUpdated] reads; [Version] is the replica
    version that a change notification carries according to the data model
    of the specification. *)
Record t : Type := Mk {
  State : option JsonValue;
  Version : option Z
}.
End ShadowDeltaUpdatedEvent.

(** [ShadowState] and [UpdateShadowResponse], with the members that
    [onUpdateShadowAccepted] dereferences. *)
Module ShadowState.
Record t : Type := Mk {
  Reported : option JsonValue;
  Desired : option JsonValue
}.
End ShadowState.

Module UpdateShadowResponse.
Record t : Type := Mk {
  State : option ShadowState.t
}.
End UpdateShadowResponse.

(** [ErrorResponse], with the members that [onUpdateShadowRejected] prints. *)
Module ErrorResponse.
Record t : Type := Mk {
  Message : option string;
  Code : option Z
}.
End ErrorResponse.

Inductive Line : Type :=
| Stdout (text : string)
| Stderr (text : string).

(** Everything the callbacks of [main] can read or change: the two output
    streams, the requests handed to [PublishUpdateShadow] (oldest first), the
    number of UUIDs drawn, the three atomic flags and the number of
    [notify_one] calls on the condition variable. *)
Record World : Type := MkWorld {
  output : list Line;
  published : list UpdateShadowRequest.t;
  uuids_drawn : nat;
  subscribeDeltaCompleted : bool;
  subscribeDeltaAccepedCompleted : bool;
  subscribeDeltaRejectedCompleted : bool;
  notified : nat
}.

Definition initial_World : World :=
  MkWorld [] [] 0 false false false 0.

(** How a piece of code ends: it runs to its end, it calls [exit], or it
    dereferences a null pointer or an empty [Optional]. *)
Inductive Step (A : Type) : Type :=
| Normal (a : A) (w : World)
| Exit (code : Z) (w : World)
| Undefined (w : World).
Arguments Normal {A} a w.
Arguments Exit {A} code w.
Arguments Undefined {A} w.

Definition M (A : Type) : Type := World → Step A.

#[global] Instance M_ret : MRet M := λ A a w, Normal a w.

#[global] Instance M_bind : MBind M := λ A B f m w,
  match m w with
  | Normal a w' => f a w'
  | Exit code w' => Exit code w'
  | Undefined w' => Undefined w'
  end.

Definition world_of {A} (s : Step A) : World :=
  match s with
  | Normal _ w | Exit _ w | Undefined w => w
  end.

(** The world after some more lines have been written. *)
Definition add_output (lines : list Line) (w : World) : World :=
  MkWorld (output w ++ lines) (published w) (uuids_drawn w)
    (subscribeDeltaCompleted w) (subscribeDeltaAccepedCompleted w)
    (subscribeDeltaRejectedCompleted w) (notified w).

(** The world after some more lines have been written and one more request
    has been published under a freshly drawn UUID. *)
Definition after_update (lines : list Line) (request : UpdateShadowRequest.t)
    (w : World) : World :=
  MkWorld (output w ++ lines) (published w ++ [request]) (S (uuids_drawn w))
    (subscribeDeltaCompleted w) (subscribeDeltaAccepedCompleted w)
    (subscribeDeltaRejectedCompleted w) (notified w).

Definition fprintf (stream : string → Line) (text : string) : M unit :=
  λ w, Normal tt (add_output [stream text] w).

Definition exit {A} (code : Z) : M A := λ w, Exit code w.

(** [operator->] and [operator*] on a pointer or an [Optional]. *)
Definition deref {A} (o : option A) : M A :=
  match o with
  | Some a => mret a
  | None => λ w, Undefined w
  end.

Definition when (b : bool) (m : M unit) : M unit :=
  if b then m else mret tt.

Definition notify_one : M unit :=
  λ w, Normal tt
    (MkWorld (output w) (published w) (uuids_drawn w)
       (subscribeDeltaCompleted w) (subscribeDeltaAccepedCompleted w)
       (subscribeDeltaRejectedCompleted w) (S (notified w))).

Definition set_subscribeDeltaCompleted (b : bool) : M unit :=
  λ w, Normal tt
    (MkWorld (output w) (published w) (uuids_drawn w)
       b (subscribeDeltaAccepedCompleted w)
       (subscribeDeltaRejectedCompleted w) (notified w)).

Definition set_subscribeDeltaAccepedCompleted (b : bool) : M unit :=
  λ w, Normal tt
    (MkWorld (output w) (published w) (uuids_drawn w)
       (subscribeDeltaCompleted w) b
       (subscribeDeltaRejectedCompleted w) (notified w)).

Definition set_subscribeDeltaRejectedCompleted (b : bool) : M unit :=
  λ w, Normal tt
    (MkWorld (output w) (published w) (uuids_drawn w)
       (subscribeDeltaCompleted w) (subscribeDeltaAccepedCompleted w)
       b (notified w)).

(** [client.PublishUpdateShadow(request, qos, onPublishComplete)]: the
    request goes out; its completion is reported later. *)
Definition PublishUpdateShadow (request : UpdateShadowRequest.t) : M unit :=
  λ w, Normal tt
    (MkWorld (output w) (published w ++ [request]) (uuids_drawn w)
       (subscribeDeltaCompleted w) (subscribeDeltaAccepedCompleted w)
       (subscribeDeltaRejectedCompleted w) (notified w)).

Section Sample.

Context `{Crt}.

(** The command-line options [--thing_name] and [--shadow_property]. *)
Variables thingName shadowProperty : string.

(** [Aws::Crt::UUID()] *)
Definition UUID_new : M UUID :=
  λ w, Normal (NewUUID (uuids_drawn w))
    (MkWorld (output w) (published w) (S (uuids_drawn w))
       (subscribeDeltaCompleted w) (subscribeDeltaAccepedCompleted w)
       (subscribeDeltaRejectedCompleted w) (notified w)).

(** The lambda [publishCompleted] of [s_changeShadowValue], which captures
    the thing name and the value. *)
Definition publishCompleted (value : string) (ioErr : Z) : M unit :=
  if negb (ioErr =? AWS_OP_SUCCESS) then
    fprintf Stderr ("failed to update " +:+ thingName +:+
                    " shadow state: error " +:+ ErrorDebugString ioErr +:+ LF)
  else
    fprintf Stdout ("Successfully updated shadow state for " +:+ thingName +:+
                    ", to " +:+ value +:+ LF).

Definition s_changeShadowValue (value : string) : M unit :=
  fprintf Stdout ("Changing local shadow value to " +:+ value +:+ "." +:+ LF) ;;
  token ← UUID_new ;
  let stateDocument := JsonObject_new in
  let reported := JsonObject_new in
  let reported := WithString shadowProperty value reported in
  let stateDocument := WithObject "reported" reported stateDocument in
  let desired := JsonObject_new in
  let desired := WithString shadowProperty value desired in
  let stateDocument := WithObject "desired" desired stateDocument in
  let updateShadowRequest :=
    UpdateShadowRequest.Mk (Some token) (Some stateDocument) (Some thingName) in
  PublishUpdateShadow updateShadowRequest.

Definition onDeltaUpdatedSubAck (ioErr : Z) : M unit :=
  when (negb (ioErr =? AWS_OP_SUCCESS))
    (fprintf Stderr ("Error subscribing to shadow delta: " +:+
                     ErrorDebugString ioErr +:+ LF) ;;
     exit (-1)) ;;
  set_subscribeDeltaCompleted true ;;
  notify_one.

Definition onDeltaUpdatedAcceptedSubAck (ioErr : Z) : M unit :=
  when (negb (ioErr =? AWS_OP_SUCCESS))
    (fprintf Stderr ("Error subscribing to shadow delta accepted: " +:+
                     ErrorDebugString ioErr +:+ LF) ;;
     exit (-1)) ;;
  set_subscribeDeltaAccepedCompleted true ;;
  notify_one.

Definition onDeltaUpdatedRejectedSubAck (ioErr : Z) : M unit :=
  when (negb (ioErr =? AWS_OP_SUCCESS))
    (fprintf Stderr ("Error subscribing to shadow delta rejected: " +:+
                     ErrorDebugString ioErr +:+ LF)) ;;
  set_subscribeDeltaRejectedCompleted true ;;
  notify_one.

(** The test [event->State && event->State->View().ValueExists(shadowProperty)]
    of [onDeltaUpdated]. *)
Definition reports_property (event : ShadowDeltaUpdatedEvent.t) : bool :=
  match ShadowDeltaUpdatedEvent.State event with
  | Some state => ValueExists state shadowProperty
  | None => false
  end.

Definition onDeltaUpdated (event : option ShadowDeltaUpdatedEvent.t)
    (ioErr : Z) : M unit :=
  match event with
  | Some event =>
      fprintf Stdout ("Received shadow delta event." +:+ LF) ;;
      if reports_property event then
        state ← deref (ShadowDeltaUpdatedEvent.State event) ;
        let objectView := GetJsonObject state shadowProperty in
        if IsNull objectView then
          fprintf Stdout ("Delta reports that " +:+ shadowProperty +:+
                          " was deleted. Resetting defaults..." +:+ LF) ;;
          s_changeShadowValue SHADOW_VALUE_DEFAULT
        else
          fprintf Stdout ("Delta reports that " +:+ DQ +:+ shadowProperty +:+
                          DQ +:+ " has a desired value of " +:+ DQ +:+
                          GetString state shadowProperty +:+ DQ +:+
                          ", Changing local value..." +:+ LF) ;;
          s_changeShadowValue (GetString state shadowProperty)
      else
        fprintf Stdout ("Delta did not report a change in " +:+ DQ +:+
                        shadowProperty +:+ DQ +:+ "." +:+ LF)
  | None => mret tt
  end ;;
  when (negb (ioErr =? 0))
    (fprintf Stdout ("Error processing shadow delta: " +:+
                     ErrorDebugString ioErr +:+ LF) ;;
     exit (-1)).

Definition onUpdateShadowAccepted (response : option UpdateShadowResponse.t)
    (ioErr : Z) : M unit :=
  if ioErr =? AWS_OP_SUCCESS then
    response ← deref response ;
    state ← deref (UpdateShadowResponse.State response) ;
    reported ← deref (ShadowState.Reported state) ;
    fprintf Stdout ("Finished updating reported shadow value to " +:+
                    GetString reported shadowProperty +:+ "." +:+ LF) ;;
    fprintf Stdout ("Enter desired value:" +:+ LF)
  else
    fprintf Stderr ("Error on subscription: " +:+ ErrorDebugString ioErr +:+
                    "." +:+ LF) ;;
    exit (-1).

Definition onUpdateShadowRejected (error : option ErrorResponse.t)
    (ioErr : Z) : M unit :=
  if ioErr =? AWS_OP_SUCCESS then
    error ← deref error ;
    message ← deref (ErrorResponse.Message error) ;
    code ← deref (ErrorResponse.Code error) ;
    fprintf Stdout ("Update of shadow state failed with message " +:+ message +:+
                    " and code " +:+ pretty code +:+ ".")
  else
    fprintf Stderr ("Error on subscription: " +:+ ErrorDebugString ioErr +:+
                    "." +:+ LF) ;;
    exit (-1).

(** The predicate of the [conditionVariable.wait] that [main] blocks on after
    it has issued the three subscriptions. *)
Definition subscriptions_completed (w : World) : bool :=
  subscribeDeltaCompleted w && subscribeDeltaAccepedCompleted w &&
  subscribeDeltaRejectedCompleted w.

(** One turn of the [while (true)] loop of [main] on the word read from
    standard input; [false] is the [break]. *)
Definition main_loop_turn (input : string) : M bool :=
  fprintf Stdout ("Enter Desired state of " +:+ shadowProperty +:+ ":" +:+ LF) ;;
  if decide (input = "exit" ∨ input = "quit") then
    fprintf Stdout "Exiting..." ;; mret false
  else
    s_changeShadowValue input ;; mret true.

(** What happens once the subscriptions have been issued: a subscription or
    a publish completes, a message arrives on one of the three topics, or
    [main] takes a turn of its loop on the next word of standard input. *)
Inductive Event : Type :=
| DeltaUpdatedSubAck (ioErr : Z)
| DeltaUpdatedAcceptedSubAck (ioErr : Z)
| DeltaUpdatedRejectedSubAck (ioErr : Z)
| DeltaUpdated (event : option ShadowDeltaUpdatedEvent.t) (ioErr : Z)
| UpdateShadowAccepted (response : option UpdateShadowResponse.t) (ioErr : Z)
| UpdateShadowRejected (error : option ErrorResponse.t) (ioErr : Z)
| PublishCompleted (value : string) (ioErr : Z)
| MainLoopTurn (input : string).

Inductive Process : Type :=
| Running (w : World)
| Terminated (code : Z) (w : World)
| Crashed (w : World).

Definition after {A} (s : Step A) : Process :=
  match s with
  | Normal _ w => Running w
  | Exit code w => Terminated code w
  | Undefined w => Crashed w
  end.

(** A callback runs to its end.  [main] only takes a turn of its loop once
    it has passed the wait on the three subscriptions; until then it stays
    blocked and the world is as it was.  The [break] of the loop leads to the
    disconnect and to [return 0]. *)
Definition deliver (e : Event) (w : World) : Process :=
  match e with
  | DeltaUpdatedSubAck ioErr => after (onDeltaUpdatedSubAck ioErr w)
  | DeltaUpdatedAcceptedSubAck ioErr => after (onDeltaUpdatedAcceptedSubAck ioErr w)
  | DeltaUpdatedRejectedSubAck ioErr => after (onDeltaUpdatedRejectedSubAck ioErr w)
  | DeltaUpdated event ioErr => after (onDeltaUpdated event ioErr w)
  | UpdateShadowAccepted response ioErr => after (onUpdateShadowAccepted response ioErr w)
  | UpdateShadowRejected error ioErr => after (onUpdateShadowRejected error ioErr w)
  | PublishCompleted value ioErr => after (publishCompleted value ioErr w)
  | MainLoopTurn input =>
      if subscriptions_completed w then
        match main_loop_turn input w with
        | Normal true w' => Running w'
        | Normal false w' => Terminated 0 w'
        | Exit code w' => Terminated code w'
        | Undefined w' => Crashed w'
        end
      else Running w
  end.

Fixpoint run (events : list Event) (p : Process) : Process :=
  match events, p with
  | e :: rest, Running w => run rest (deliver e w)
  | _, _ => p
  end.

Definition world (p : Process) : World :=
  match p with
  | Running w | Terminated _ w | Crashed w => w
  end.

Definition is_running (p : Process) : bool :=
  match p with Running _ => true | _ => false end.

End Sample.

(** The value that a request carries for a property in one partition
    ([reported] or [desired]) of its state document. *)
Definition carried (partition property : string)
    (request : UpdateShadowRequest.t) : option JsonValue :=
  state ← UpdateShadowRequest.State request ;
  part ← member partition state ;
  member property part.

(** A successfully delivered delta event whose state holds one string
    member, with the version of the replica. *)
Definition delta_event (property value : string) (version : Z) : Event :=
  DeltaUpdated
    (Some (ShadowDeltaUpdatedEvent.Mk
             (Some (JObject [(property, JString value)])) (Some version)))
    AWS_OP_SUCCESS.

(** The version carried by a delta event. *)
Definition event_version (e : Event) : option Z :=
  match e with
  | DeltaUpdated (Some event) _ => ShadowDeltaUpdatedEvent.Version event
  | _ => None
  end.

(** The three flags that the wait of [main] looks at. *)
Definition flags (w : World) : bool * bool * bool :=
  (subscribeDeltaCompleted w, subscribeDeltaAccepedCompleted w,
   subscribeDeltaRejectedCompleted w).

(** The requests published from one point of a run to a later one. *)
Definition published_since (earlier later : Process) : list UpdateShadowRequest.t :=
  drop (length (published (world earlier))) (published (world later)).

(** A reading of documents in which a member exists as soon as its key is
    there, whatever its value, and in which a member that is not a string
    reads as the empty string. *)
Definition get_or_null (v : JsonValue) (key : string) : JsonValue :=
  default JNull (member key v).

Definition string_of (v : JsonValue) : string :=
  match v with JString s => s | _ => "" end.

Definition key_view : Crt := {|
  ValueExists v key := bool_decide (is_Some (member key v));
  GetJsonObject := get_or_null;
  IsNull := is_null;
  GetString v key := string_of (get_or_null v key);
  ErrorDebugString code := "error " +:+ pretty code;
  NewUUID n := MkUUID (N.of_nat n)
|}.

(** The same reading, except that a member whose value is null does not
    count as existing. *)
Definition value_view : Crt := {|
  ValueExists v key :=
    match member key v with
    | Some x => negb (is_null x)
    | None => false
    end;
  GetJsonObject := get_or_null;
  IsNull := is_null;
  GetString v key := string_of (get_or_null v key);
  ErrorDebugString code := "error " +:+ pretty code;
  NewUUID n := MkUUID (N.of_nat n)
|}.

End ShadowSync.

(* ===================================================================== *)
(** ** Command-line options of the samples                                *)
(* ===================================================================== *)

Module CommandLine.
Import ShadowSync.

Definition TAB : string := String (Ascii.ascii_of_nat 9) EmptyString.

(** [std::find(begin, end, option)] over the arguments: the position of the
    first argument that equals the option [name], or the number of arguments (the
    [end] iterator) when there is none. *)
Fixpoint std_find (argv : list string) (name : string) : nat :=
  match argv with
  | [] => 0
  | arg :: rest =>
      if decide (arg = name) then 0 else S (std_find rest name)
  end.

Definition s_cmdOptionExists (argv : list string) (name : string) : bool :=
  bool_decide (std_find argv name ≠ length argv).

(** The argument after the first occurrence of the option; [None] is the
    null pointer of [return 0]. *)
Definition s_getCmdOption (argv : list string) (name : string)
    : option string :=
  let itr := std_find argv name in
  if bool_decide (itr ≠ length argv) && bool_decide (S itr ≠ length argv)
  then argv !! S itr
  else None.

(** [s_printHelp] of the shadow-sync sample: the lines it writes. *)
Definition s_printHelp : list Line :=
  [Stdout ("Usage:" +:+ LF);
   Stdout ("shadow-sync --endpoint <endpoint> --cert <path to cert>" +:+
           " --key <path to key> --ca_file <optional: path to custom ca>" +:+
           "--thing_name <thing name> --shadow_property <Name of property in shadow to keep in sync.>" +:+
           LF +:+ LF);
   Stdout ("endpoint: the endpoint of the mqtt server not including a port" +:+ LF);
   Stdout ("cert: path to your client certificate in PEM format" +:+ LF);
   Stdout ("key: path to your key in PEM format" +:+ LF);
   Stdout ("ca_file: Optional, if the mqtt server uses a certificate that's not already" +:+
           " in your trust store, set this." +:+ LF);
   Stdout (TAB +:+ "It's the path to a CA file in PEM format" +:+ LF);
   Stdout ("thing_name: the name of your IOT thing" +:+ LF);
   Stdout ("shadow_property: The name of the shadow property you want to change." +:+ LF)].

(** The six [String] variables that [main] fills from the options. *)
Record Arguments : Type := MkArguments {
  endpoint : string;
  certificatePath : string;
  keyPath : string;
  caFile : string;
  thingName : string;
  shadowProperty : string
}.

(** How the argument section of [main] ends: the help is written and [main]
    returns 0, the six variables are filled, or a [String] is assigned the
    null pointer that [s_getCmdOption] returned. *)
Inductive ArgumentsOutcome : Type :=
| HelpPrinted (lines : list Line)
| Filled (arguments : Arguments)
| NullAssigned.

(** The options that [main] insists on. *)
Definition required_options : list string :=
  ["--endpoint"; "--cert"; "--key"; "--thing_name"; "--shadow_property"].

(** The section "Parse Arguments" of [main] in the shadow-sync sample. *)
Definition main_arguments (argv : list string) : ArgumentsOutcome :=
  if negb (s_cmdOptionExists argv "--endpoint" &&
           s_cmdOptionExists argv "--cert" &&
           s_cmdOptionExists argv "--key" &&
           s_cmdOptionExists argv "--thing_name" &&
           s_cmdOptionExists argv "--shadow_property")
  then HelpPrinted s_printHelp
  else
    match s_getCmdOption argv "--endpoint", s_getCmdOption argv "--cert",
          s_getCmdOption argv "--key", s_getCmdOption argv "--thing_name",
          s_getCmdOption argv "--shadow_property" with
    | Some endpoint, Some certificatePath, Some keyPath, Some thingName,
      Some shadowProperty =>
        if s_cmdOptionExists argv "--ca_file" then
          match s_getCmdOption argv "--ca_file" with
          | Some caFile =>
              Filled (MkArguments endpoint certificatePath keyPath caFile
                        thingName shadowProperty)
          | None => NullAssigned
          end
        else
          Filled (MkArguments endpoint certificatePath keyPath ""
                    thingName shadowProperty)
    | _, _, _, _, _ => NullAssigned
    end.

End CommandLine.

(* ===================================================================== *)
(** ** Connecting, in the shadow-sync sample                              *)
(* ===================================================================== *)

Module Connecting.
Import ShadowSync.

(** The three atomic flags that [main] declares before it connects, the
    lines written and the number of [notify_one] calls. *)
Record Connection : Type := MkConnection {
  connectionSucceeded : bool;
  connectionClosed : bool;
  connectionCompleted : bool;
  written : list Line;
  woken : nat
}.

Definition initial_Connection : Connection :=
  MkConnection false false false [] 0.

Section Callbacks.

Context `{Crt}.

(** The lambda [onConnectionCompleted]; [connectionState] is what
    [connection->GetConnectionState()] yields when it is asked. *)
Definition onConnectionCompleted (errorCode returnCode connectionState : Z)
    (c : Connection) : Connection :=
  let c :=
    if negb (errorCode =? 0) then
      MkConnection false (connectionClosed c) (connectionCompleted c)
        (written c ++
         [Stdout ("Connection failed with error " +:+
                  ErrorDebugString errorCode +:+ LF)])
        (woken c)
    else
      MkConnection true (connectionClosed c) (connectionCompleted c)
        (written c ++
         [Stdout ("Connection completed with return code " +:+
                  pretty returnCode +:+ LF);
          Stdout ("Connection state " +:+ pretty connectionState +:+ LF)])
        (woken c)
  in
  MkConnection (connectionSucceeded c) (connectionClosed c) true (written c)
    (S (woken c)).

(** The lambda [onDisconnect]. *)
Definition onDisconnect (connectionState : Z) (c : Connection) : Connection :=
  MkConnection (connectionSucceeded c) true (connectionCompleted c)
    (written c ++ [Stdout ("Connection state " +:+ pretty connectionState +:+ LF)])
    (S (woken c)).

(** The predicate of the wait that follows [connection->Connect]. *)
Definition connected_or_closed (c : Connection) : bool :=
  connectionSucceeded c || connectionClosed c.

Inductive ConnectionEvent : Type :=
| ConnectionCompleted (errorCode returnCode connectionState : Z)
| Disconnected (connectionState : Z).

Definition connection_step (c : Connection) (e : ConnectionEvent) : Connection :=
  match e with
  | ConnectionCompleted errorCode returnCode connectionState =>
      onConnectionCompleted errorCode returnCode connectionState c
  | Disconnected connectionState => onDisconnect connectionState c
  end.

Definition connection_run (events : list ConnectionEvent) (c : Connection)
    : Connection :=
  foldl connection_step c events.

End Callbacks.

(** A completion of the connect with an error. *)
Definition is_failed_completion (e : ConnectionEvent) : bool :=
  match e with
  | ConnectionCompleted errorCode _ _ => negb (errorCode =? 0)
  | Disconnected _ => false
  end.

End Connecting.

(* ===================================================================== *)
(** ** The describe-job-execution sample                                  *)
(* ===================================================================== *)

Module DescribeJobExecution.
Import ShadowSync JobStatusMarshaller.

(** [JobExecutionData] (include/aws/iotsdk/jobs/JobExecutionData.h); a
    [DateTime] is taken as its seconds since the epoch. *)
Module JobExecutionData.
Record t : Type := Mk {
  JobId : option string;
  ThingName : option string;
  JobDocument : option string;
  Status : option JobStatus;
  QueuedAt : option Z;
  StartedAt : option Z;
  LastUpdatedAt : option Z;
  VersionNumber : option Z;
  ExecutionNumber : option Z
}.
End JobExecutionData.

(** [DescribeJobExecutionResponse], with the members that the sample
    reads. *)
Module DescribeJobExecutionResponse.
Record t : Type := Mk {
  Execution : option JobExecutionData.t;
  ClientToken : option UUID
}.
End DescribeJobExecutionResponse.

(** [JobsError], with the member that the sample prints. *)
Module JobsError.
Record t : Type := Mk {
  ErrorCode : Z
}.
End JobsError.

(** What the callbacks of this sample change: the lines written and the
    number of [notify_one] calls on the condition variable. *)
Record Console : Type := MkConsole {
  printed : list Line;
  wakeups : nat
}.

Definition print (line : Line) (c : Console) : Console :=
  MkConsole (printed c ++ [line]) (wakeups c).

Definition wake (c : Console) : Console :=
  MkConsole (printed c) (S (wakeups c)).

Section Handlers.

(** [UUID::ToString], a function of the CRT. *)
Variable UUID_ToString : UUID → string.

(** The lambda [subAckHandler]. *)
Definition subAckHandler (ioErr : Z) (c : Console) : Console :=
  if ioErr =? 0 then wake c else c.

(** The lambda [subscriptionHandler]; [None] stands for the dereference
    of a null pointer or of an empty [Optional]. *)
Definition subscriptionHandler
    (response : option DescribeJobExecutionResponse.t) (ioErr : Z)
    (c : Console) : option Console :=
  if negb (ioErr =? 0) then
    Some (wake (print (Stderr ("Error " +:+ pretty ioErr +:+ " occurred" +:+ LF)) c))
  else
    let c := print (Stdout ("Received Job:" +:+ LF)) c in
    response ← response ;
    execution ← DescribeJobExecutionResponse.Execution response ;
    jobId ← JobExecutionData.JobId execution ;
    let c := print (Stdout ("Job Id: " +:+ jobId +:+ LF)) c in
    clientToken ← DescribeJobExecutionResponse.ClientToken response ;
    let c := print (Stdout ("ClientToken: " +:+ UUID_ToString clientToken +:+ LF)) c in
    status ← JobExecutionData.Status execution ;
    let c := print (Stdout ("Execution Status: " +:+ ToString status +:+ LF)) c in
    Some (wake c).

(** The lambda [failureHandler]. *)
Definition failureHandler (error : option JobsError.t) (ioErr : Z)
    (c : Console) : Console :=
  if negb (ioErr =? 0) then
    wake (print (Stderr ("Error " +:+ pretty ioErr +:+ " occurred" +:+ LF)) c)
  else
    match error with
    | Some error =>
        wake (print (Stderr ("Service Error " +:+
                             pretty (JobsError.ErrorCode error) +:+
                             " occured" +:+ LF)) c)
    | None => c
    end.

(** The lambda [publishHandler]. *)
Definition publishHandler (ioErr : Z) (c : Console) : Console :=
  if negb (ioErr =? 0) then
    wake (print (Stderr ("Error " +:+ pretty ioErr +:+ " occurred" +:+ LF)) c)
  else c.

End Handlers.

End DescribeJobExecution.

(* ===================================================================== *)
(** ** A hash with collisions                                             *)
(* ===================================================================== *)

Module HashExamples.
Import JobStatusMarshaller.

(** The first three characters of a string. *)
Definition prefix3 (s : string) : string :=
  match s with
  | String a (String b (String c _)) => String a (String b (String c EmptyString))
  | _ => s
  end.

(** A hash that only looks at the first three characters: it tells the
    seven status names apart and maps other strings onto them. *)
Definition prefix_hash (s : string) : Z := bernstein_hash (prefix3 s).

End HashExamples.

(* ===================================================================== *)
(** ** How a run of the shadow-sync sample changes the world              *)
(* ===================================================================== *)

Module RunShape.
Import Json ShadowSync.

Section Sample.

Context `{Crt}.
Variables thingName shadowProperty : string.

(** The request that [s_changeShadowValue] builds for a value when [n]
    UUIDs have been drawn before. *)
Definition built (n : nat) (value : string) : UpdateShadowRequest.t :=
  UpdateShadowRequest.Mk (Some (NewUUID n))
    (Some (WithObject "desired"
             (WithString shadowProperty value JsonObject_new)
             (WithObject "reported"
                (WithString shadowProperty value JsonObject_new)
                JsonObject_new)))
    (Some thingName).

(** A change of the world in which lines are appended, at most one request
    is appended, built as above under the next UUID, flags are only ever
    set and the number of notifications does not decrease. *)
Definition grows (w w' : World) : Prop :=
  ∃ lines news,
    output w' = (output w ++ lines)%list
    ∧ published w' = (published w ++ news)%list
    ∧ uuids_drawn w' = (uuids_drawn w + length news)%nat
    ∧ (news = [] ∨ ∃ value, news = [built (uuids_drawn w) value])
    ∧ (subscribeDeltaCompleted w = true → subscribeDeltaCompleted w' = true)
    ∧ (subscribeDeltaAccepedCompleted w = true →
         subscribeDeltaAccepedCompleted w' = true)
    ∧ (subscribeDeltaRejectedCompleted w = true →
         subscribeDeltaRejectedCompleted w' = true)
    ∧ (notified w ≤ notified w')%nat.

End Sample.

End RunShape.

(* ===================================================================== *)
(** ** How the CRT reads a member that is bound to null                   *)
(* ===================================================================== *)

Module CrtReading.
Import Json ShadowSync.

(** [JsonView::ValueExists] does not hold for a member whose value is null:
    whenever it holds for a key, the value read for that key is not null.
    The CRT is not part of the sources at hand, so this is stated as a
    property of the interface; [value_view] has it, [key_view] has not. *)
Definition ValueExists_excludes_null `{Crt} : Prop :=
  ∀ doc key, ValueExists doc key = true → IsNull (GetJsonObject doc key) = false.

End CrtReading.

(* ===================================================================== *)
(** * Properties                                                          *)
(* ===================================================================== *)

Module JsonLemmas.
Import Json.

Lemma find_member_set_eq key v ms :
  find_member key (set_member key v ms) = Some v.
Proof.
  induction ms as [|[k x] rest IH]; simpl.
  - by rewrite decide_True.
  - destruct (decide (k = key)) as [->|Hne]; simpl.
    + by rewrite decide_True.
    + by rewrite decide_False.
Qed.

Lemma find_member_set_ne key key' v ms :
  key ≠ key' →
  find_member key' (set_member key v ms) = find_member key' ms.
Proof.
  intros Hne. induction ms as [|[k x] rest IH]; simpl.
  - by rewrite decide_False.
  - destruct (decide (k = key)) as [->|Hk]; simpl.
    + by rewrite !decide_False.
    + destruct (decide (k = key')); [done | apply IH].
Qed.

Lemma member_WithString key value obj :
  member key (WithString key value obj) = Some (JString value).
Proof. apply find_member_set_eq. Qed.

Lemma member_WithObject key value obj :
  member key (WithObject key value obj) = Some value.
Proof. apply find_member_set_eq. Qed.

Lemma member_WithObject_ne key key' value obj :
  key ≠ key' →
  member key' (WithObject key value obj) = member key' obj.
Proof. intros Hne. by apply find_member_set_ne. Qed.

End JsonLemmas.

(* --------------------------------------------------------------------- *)
(** ** Job status names                                                   *)
(* --------------------------------------------------------------------- *)

Module JobStatusSpec.
Import JobStatusMarshaller.

Section WithHash.

Variable HashString : string → Z.

Abbreviation hashes := (status_hashes HashString).
Abbreviation parse := (FromString HashString).

Lemma status_hashes_lookup s :
  HashString (ToString s) ∈ hashes.
Proof. destruct s; unfold status_hashes; set_solver. Qed.


(** A hash among the seven constants returns the first enumerator whose
    constant it equals. *)
Lemma FromString_hit str :
  HashString str ∈ hashes →
  ∃ s, parse str = Returned s ∧ HashString (ToString s) = HashString str.
Proof.
  unfold status_hashes, FromString. intros Hin. cbv zeta.
  repeat
    match goal with
    | |- context [?a =? ?b] =>
        destruct (Z.eqb_spec a b) as [Heq|?];
        [eexists; split; [reflexivity | by rewrite Heq] |]
    end.
  repeat (apply elem_of_cons in Hin as [? | Hin]; [done |]).
  by apply elem_of_nil in Hin.
Qed.

Lemma FromString_ToString s :
  NoDup hashes → parse (ToString s) = Returned s.
Proof.
  intros Hnodup.
  destruct (FromString_hit (ToString s) (status_hashes_lookup s))
    as (s' & Hparse & Hhash).
  rewrite Hparse. f_equal.
  assert (Hinj : ∀ i j x, hashes !! i = Some x → hashes !! j = Some x → i = j)
    by (intros i j x; apply NoDup_lookup, Hnodup).
  assert (Hidx : ∀ t, ∃ i, all_statuses !! i = Some t
                      ∧ hashes !! i = Some (HashString (ToString t))).
  { intros []; [by exists 0%nat | by exists 1%nat | by exists 2%nat
               | by exists 3%nat | by exists 4%nat | by exists 5%nat
               | by exists 6%nat]. }
  destruct (Hidx s) as (i & Hi & Hhi), (Hidx s') as (j & Hj & Hhj).
  rewrite Hhash in Hhj. rewrite (Hinj _ _ _ Hhi Hhj) in Hi. congruence.
Qed.

(** Whatever the hash function, a string that is not a status name is not
    reported as an error: either the assertion is reached or the enumerator
    of another name comes back. *)
Lemma FromString_never_reports str :
  str ∉ recognized_names →
  asserts (parse str) = true
  ∨ ∃ s, parse str = Returned s ∧ ToString s ≠ str.
Proof.
  intros Hname. destruct (parse str) as [s|v] eqn:Hparse; [right | by left].
  exists s. split; [done |]. intros <-. apply Hname.
  unfold recognized_names. apply list_elem_of_fmap. exists s. split; [done |].
  destruct s; set_solver.
Qed.

End WithHash.


End JobStatusSpec.

(* --------------------------------------------------------------------- *)
(** ** The empty codecs                                                   *)
(* --------------------------------------------------------------------- *)

Module EnvelopeCodecSpec.
Import Json EmptyCodec.

Section Request.

Variable Request : Type.
Variable Request_default : Request.

Lemma SerializeToObject_leaves_document (value : Request) object :
  SerializeToObject Request value object = object.
Proof. reflexivity. Qed.

Lemma decode_any_document doc :
  decode Request Request_default doc = Request_default.
Proof. reflexivity. Qed.

(** C7, as the code has it: for [DeleteShadowRequest] and
    [UpdateJobExecutionSubscriptionRequest] encoding emits no member and
    decoding reads none, so decoding the encoding of a value gives the
    default-constructed value; the round trip returns the value exactly when
    the value is the default-constructed one. *)
Theorem decode_encode_is_default (value : Request) :
  encode Request value = JsonObject_new
  ∧ decode Request Request_default (encode Request value) = Request_default
  ∧ (decode Request Request_default (encode Request value) = value
     ↔ value = Request_default).
Proof.
  split; [reflexivity |]. split; [reflexivity |].
  rewrite decode_any_document. split; intros Heq; by symmetry.
Qed.

End Request.

(** C7 as stated fails: a request with its thing name set does not survive
    the round trip. *)
Lemma decode_encode_loses_ThingName :
  decode DeleteShadowRequest DeleteShadowRequest_default
    (encode DeleteShadowRequest (MkDeleteShadowRequest (Some "thing")))
  ≠ MkDeleteShadowRequest (Some "thing").
Proof. discriminate. Qed.

End EnvelopeCodecSpec.

(* --------------------------------------------------------------------- *)
(** ** The version guard                                                  *)
(* --------------------------------------------------------------------- *)

Module VersionGuardSpec.
Import VersionGuard.

Lemma accept_unset candidate : accept candidate None = Advance.
Proof. reflexivity. Qed.

Lemma accept_newer candidate current :
  current < candidate → accept candidate (Some current) = Advance.
Proof. intros Hlt. unfold accept. by apply Z.ltb_lt in Hlt as ->. Qed.

Lemma accept_not_newer candidate current :
  candidate ≤ current → accept candidate (Some current) = StaleIgnore.
Proof.
  intros Hle. unfold accept.
  destruct (Z.ltb_spec current candidate); [lia | done].
Qed.

(** C1: [accept b a] is [Advance] exactly when [a] is unset or [b > a], and
    [StaleIgnore] exactly when [a] is set and [b] ties with it or lies
    below. *)
Theorem accept_policy (b : Z) (a : option Z) :
  (accept b a = Advance ↔ a = None ∨ ∃ current, a = Some current ∧ b > current)
  ∧ (accept b a = StaleIgnore ↔ ∃ current, a = Some current ∧ b ≤ current).
Proof.
  destruct a as [current|].
  - destruct (Z.lt_ge_cases current b) as [Hlt|Hge].
    + rewrite (accept_newer _ _ Hlt). split; split.
      * intros _. right. exists current. split; [done | lia].
      * done.
      * done.
      * intros (c & [= <-] & Hle). lia.
    + rewrite (accept_not_newer _ _ Hge). split; split.
      * done.
      * intros [? | (c & [= <-] & Hgt)]; [done | lia].
      * intros _. by exists current.
      * done.
  - rewrite accept_unset. split; split.
    + intros _. by left.
    + done.
    + done.
    + intros (c & ? & _). done.
Qed.

End VersionGuardSpec.

(* --------------------------------------------------------------------- *)
(** ** The correlation registry                                           *)
(* --------------------------------------------------------------------- *)

Module CorrelationRegistrySpec.
Import CorrelationRegistry.

Section Registry.

Context {Token : Type} `{Countable Token}.
Variables Handler Outcome : Type.

Abbreviation registry := (gmap Token (PendingRequest Handler)).

Lemma resolve_pending token outcome (reg : registry) p :
  reg !! token = Some p →
  resolve Handler Outcome token outcome reg
  = (delete token reg, [(resultHandler Handler p, outcome)]).
Proof. intros Hp. unfold resolve. by rewrite Hp. Qed.

Lemma resolve_unknown token outcome (reg : registry) :
  reg !! token = None →
  resolve Handler Outcome token outcome reg = (reg, []).
Proof. intros Hp. unfold resolve. by rewrite Hp. Qed.

Lemma register_then_pending token now handler (reg reg' : registry) :
  register Handler token now handler reg = Registered Handler reg' →
  reg' !! token = Some (MkPending Handler now handler).
Proof.
  unfold register. destruct (reg !! token); [done |].
  intros [= <-]. apply lookup_insert_eq.
Qed.

(** C4: when a token is pending, resolving it calls its handler once and
    removes the entry; delivering the same outcome for the token once more
    finds no entry, calls no handler and leaves the registry as it is. *)
Theorem resolve_twice_calls_once token outcome (reg : registry) p :
  reg !! token = Some p →
  let first := resolve Handler Outcome token outcome reg in
  let second := resolve Handler Outcome token outcome first.1 in
  first.2 = [(resultHandler Handler p, outcome)]
  ∧ second.2 = []
  ∧ second.1 = first.1.
Proof.
  intros Hp. simpl. rewrite (resolve_pending _ _ _ _ Hp). simpl.
  rewrite resolve_unknown by apply lookup_delete_eq. done.
Qed.

End Registry.

Lemma resolve_twice_calls_once_witness :
  let reg : gmap string (PendingRequest string) :=
    {[ "token-1" := MkPending string 10 "onUpdateShadowAccepted" ]} in
  reg !! "token-1" = Some (MkPending string 10 "onUpdateShadowAccepted")
  ∧ (resolve string string "token-1" "Accepted" reg).2
    = [("onUpdateShadowAccepted", "Accepted")]
  ∧ (resolve string string "token-1" "Accepted"
       (resolve string string "token-1" "Accepted" reg).1).2 = [].
Proof.
  intros reg.
  assert (Hp : reg !! "token-1"
               = Some (MkPending string 10 "onUpdateShadowAccepted"))
    by reflexivity.
  destruct (resolve_twice_calls_once string string "token-1" "Accepted" reg _ Hp)
    as (Hfirst & Hsecond & _).
  split; [exact Hp |]. split; [exact Hfirst | exact Hsecond].
Defined.

End CorrelationRegistrySpec.

(* --------------------------------------------------------------------- *)
(** ** The shadow-sync sample                                             *)
(* --------------------------------------------------------------------- *)

Module ShadowSyncSpec.
Import Json JsonLemmas ShadowSync.

(** Unfolds the plumbing of [M], so that a handler applied to a world
    computes. *)
Ltac run_M :=
  repeat
    (progress
       (unfold mbind, M_bind, mret, M_ret, when, fprintf, exit, deref,
          notify_one, set_subscribeDeltaCompleted,
          set_subscribeDeltaAccepedCompleted,
          set_subscribeDeltaRejectedCompleted, PublishUpdateShadow, UUID_new,
          add_output, after_update;
        cbn [output published uuids_drawn subscribeDeltaCompleted
             subscribeDeltaAccepedCompleted subscribeDeltaRejectedCompleted
             notified world_of negb
             ShadowDeltaUpdatedEvent.State UpdateShadowResponse.State
             ShadowState.Reported ErrorResponse.Message ErrorResponse.Code])).

Section Sample.

Context `{Crt}.
Variables thingName shadowProperty : string.

Abbreviation change := (s_changeShadowValue thingName shadowProperty).
Abbreviation delta := (onDeltaUpdated thingName shadowProperty).
Abbreviation accepted := (onUpdateShadowAccepted shadowProperty).
Abbreviation rejected := (onUpdateShadowRejected).
Abbreviation reports := (reports_property shadowProperty).

(** *** [s_changeShadowValue] *)

Lemma carried_mirror token value part :
  part = "reported" ∨ part = "desired" →
  carried part shadowProperty
    (UpdateShadowRequest.Mk (Some token)
       (Some (WithObject "desired"
                (WithString shadowProperty value JsonObject_new)
                (WithObject "reported"
                   (WithString shadowProperty value JsonObject_new)
                   JsonObject_new)))
       (Some thingName))
  = Some (JString value).
Proof.
  intros [-> | ->]; unfold carried; cbn [UpdateShadowRequest.State mbind option_bind].
  - rewrite member_WithObject_ne by done. rewrite member_WithObject.
    cbn [mbind option_bind]. apply member_WithString.
  - rewrite member_WithObject. cbn [mbind option_bind].
    apply member_WithString.
Qed.

Lemma change_run (value : string) (w : World) :
  ∃ request,
    change value w
    = Normal tt
        (after_update
           [Stdout ("Changing local shadow value to " +:+ value +:+ "." +:+ LF)]
           request w)
    ∧ carried "reported" shadowProperty request = Some (JString value)
    ∧ carried "desired" shadowProperty request = Some (JString value)
    ∧ UpdateShadowRequest.ThingName request = Some thingName.
Proof.
  eexists. split; [unfold s_changeShadowValue; run_M; reflexivity |].
  split; [apply carried_mirror; by left |].
  split; [apply carried_mirror; by right | reflexivity].
Qed.

(** C5: [s_changeShadowValue] publishes exactly one request, and that
    request carries the given value for the watched property both under
    [reported] and under [desired]. *)
Theorem s_changeShadowValue_mirrors (value : string) (w : World) :
  ∃ request,
    change value w
    = Normal tt
        (after_update
           [Stdout ("Changing local shadow value to " +:+ value +:+ "." +:+ LF)]
           request w)
    ∧ published (world_of (change value w)) = (published w ++ [request])%list
    ∧ carried "reported" shadowProperty request = Some (JString value)
    ∧ carried "desired" shadowProperty request = Some (JString value).
Proof.
  destruct (change_run value w) as (request & Hrun & Hr & Hd & _).
  exists request. split; [exact Hrun |]. by rewrite Hrun.
Qed.

(** *** [onDeltaUpdated] *)

(** The last statement of [onDeltaUpdated]. *)
Abbreviation check_ioErr ioErr :=
  (when (negb (ioErr =? 0))
     (fprintf Stdout ("Error processing shadow delta: " +:+
                      ErrorDebugString ioErr +:+ LF) ;;
      exit (-1))).

Abbreviation line_received := (Stdout ("Received shadow delta event." +:+ LF)).
Abbreviation line_no_change :=
  (Stdout ("Delta did not report a change in " +:+ DQ +:+ shadowProperty +:+
           DQ +:+ "." +:+ LF)).
Abbreviation line_deleted :=
  (Stdout ("Delta reports that " +:+ shadowProperty +:+
           " was deleted. Resetting defaults..." +:+ LF)).
Abbreviation line_desired value :=
  (Stdout ("Delta reports that " +:+ DQ +:+ shadowProperty +:+ DQ +:+
           " has a desired value of " +:+ DQ +:+ value +:+ DQ +:+
           ", Changing local value..." +:+ LF)).
Abbreviation line_changing value :=
  (Stdout ("Changing local shadow value to " +:+ value +:+ "." +:+ LF)).

Lemma check_ioErr_success w : check_ioErr AWS_OP_SUCCESS w = Normal tt w.
Proof. reflexivity. Qed.

Lemma check_ioErr_failure ioErr w :
  ioErr ≠ 0 →
  check_ioErr ioErr w
  = Exit (-1)
      (add_output [Stdout ("Error processing shadow delta: " +:+
                           ErrorDebugString ioErr +:+ LF)] w).
Proof. intros Hne. apply Z.eqb_neq in Hne. run_M. by rewrite Hne. Qed.

(** The check of [ioErr] writes at most a line. *)
Lemma check_ioErr_frame ioErr w :
  let w' := world_of (check_ioErr ioErr w) in
  published w' = published w
  ∧ uuids_drawn w' = uuids_drawn w
  ∧ subscribeDeltaCompleted w' = subscribeDeltaCompleted w
  ∧ subscribeDeltaAccepedCompleted w' = subscribeDeltaAccepedCompleted w
  ∧ subscribeDeltaRejectedCompleted w' = subscribeDeltaRejectedCompleted w
  ∧ notified w' = notified w.
Proof. run_M. by destruct (ioErr =? 0). Qed.

Lemma reports_property_true event state :
  ShadowDeltaUpdatedEvent.State event = Some state →
  ValueExists state shadowProperty = true →
  reports event = true.
Proof. unfold reports_property. by intros -> ->. Qed.

Lemma delta_run_unreported event ioErr w :
  reports event = false →
  delta (Some event) ioErr w
  = check_ioErr ioErr (add_output [line_received; line_no_change] w).
Proof.
  intros Hrep. unfold onDeltaUpdated. rewrite Hrep. run_M.
  by rewrite <- app_assoc.
Qed.

Lemma delta_run_value event state w :
  ShadowDeltaUpdatedEvent.State event = Some state →
  ValueExists state shadowProperty = true →
  IsNull (GetJsonObject state shadowProperty) = false →
  ∃ request,
    (∀ ioErr,
       delta (Some event) ioErr w
       = check_ioErr ioErr
        (after_update
           [line_received; line_desired (GetString state shadowProperty);
            line_changing (GetString state shadowProperty)]
           request w))
    ∧ carried "reported" shadowProperty request
      = Some (JString (GetString state shadowProperty))
    ∧ carried "desired" shadowProperty request
      = Some (JString (GetString state shadowProperty)).
Proof.
  intros Hstate Hexists Hnull. eexists. split.
  - intros ioErr. unfold onDeltaUpdated.
    rewrite (reports_property_true _ _ Hstate Hexists), Hstate.
    unfold s_changeShadowValue. run_M. rewrite Hnull. run_M.
    rewrite <- !app_assoc. reflexivity.
  - split; apply carried_mirror; auto.
Qed.

Lemma delta_run_no_event ioErr w : delta None ioErr w = check_ioErr ioErr w.
Proof. reflexivity. Qed.

(** C8: a delta event whose state is absent or does not report the
    watched property makes [onDeltaUpdated] publish nothing, draw no UUID
    and touch no flag, whatever [ioErr] is; delivered with success, it only
    writes two lines and returns. *)
Theorem onDeltaUpdated_unwatched_ignored event w :
  reports event = false →
  (∀ ioErr,
     let w' := world_of (delta (Some event) ioErr w) in
     published w' = published w
     ∧ uuids_drawn w' = uuids_drawn w
     ∧ subscribeDeltaCompleted w' = subscribeDeltaCompleted w
     ∧ subscribeDeltaAccepedCompleted w' = subscribeDeltaAccepedCompleted w
     ∧ subscribeDeltaRejectedCompleted w' = subscribeDeltaRejectedCompleted w
     ∧ notified w' = notified w)
  ∧ delta (Some event) AWS_OP_SUCCESS w
    = Normal tt (add_output [line_received; line_no_change] w).
Proof.
  intros Hrep. split.
  - intros ioErr. rewrite (delta_run_unreported _ _ _ Hrep).
    exact (check_ioErr_frame ioErr
             (add_output [line_received; line_no_change] w)).
  - by rewrite (delta_run_unreported _ _ _ Hrep).
Qed.

(** C10, where the code departs from it: [ValueExists] not holding for a
    member that is bound to null, a delta event whose state has the watched
    property with a null value does not pass the test that guards the reset
    to ["off"]: the event counts as one that does not report the property,
    two lines are written and nothing is published, whatever [ioErr] is. *)
Theorem onDeltaUpdated_null_is_not_reset event state w :
  CrtReading.ValueExists_excludes_null →
  ShadowDeltaUpdatedEvent.State event = Some state →
  IsNull (GetJsonObject state shadowProperty) = true →
  reports event = false
  ∧ delta (Some event) AWS_OP_SUCCESS w
    = Normal tt (add_output [line_received; line_no_change] w)
  ∧ ∀ ioErr,
      published (world_of (delta (Some event) ioErr w)) = published w.
Proof.
  intros Hreading Hstate Hnull.
  assert (Hrep : reports event = false).
  { unfold reports_property. rewrite Hstate.
    destruct (ValueExists state shadowProperty) eqn:Hexists; [| done].
    apply Hreading in Hexists. congruence. }
  split; [exact Hrep |]. split.
  - by rewrite (delta_run_unreported _ _ _ Hrep).
  - intros ioErr. rewrite (delta_run_unreported _ _ _ Hrep).
    exact (proj1 (check_ioErr_frame ioErr
                    (add_output [line_received; line_no_change] w))).
Qed.

Lemma delta_value_published event state w :
  ShadowDeltaUpdatedEvent.State event = Some state →
  ValueExists state shadowProperty = true →
  IsNull (GetJsonObject state shadowProperty) = false →
  ∃ request,
    (∀ ioErr,
       published (world_of (delta (Some event) ioErr w))
       = (published w ++ [request])%list)
    ∧ delta (Some event) AWS_OP_SUCCESS w
      = Normal tt
          (after_update
             [line_received; line_desired (GetString state shadowProperty);
              line_changing (GetString state shadowProperty)]
             request w)
    ∧ carried "reported" shadowProperty request
      = Some (JString (GetString state shadowProperty))
    ∧ carried "desired" shadowProperty request
      = Some (JString (GetString state shadowProperty)).
Proof.
  intros Hstate Hexists Hnull.
  destruct (delta_run_value event state w Hstate Hexists Hnull)
    as (request & Hrun & Hr & Hd).
  exists request. split; [| split; [apply (Hrun 0) | by split]].
  intros ioErr. rewrite Hrun.
  exact (proj1 (check_ioErr_frame ioErr
                  (after_update
                     [line_received;
                      line_desired (GetString state shadowProperty);
                      line_changing (GetString state shadowProperty)]
                     request w))).
Qed.

(** C2, as the code has it: [onDeltaUpdated] does not read the version of
    the event and no last-seen version is kept, so the reaction to an event
    is the same whatever version it carries; in particular an event whose
    state has a non-null value for the watched property makes one request go
    out with that value, be its version stale or not. *)
Theorem onDeltaUpdated_version_blind state version version' ioErr w :
  delta (Some (ShadowDeltaUpdatedEvent.Mk state version)) ioErr w
  = delta (Some (ShadowDeltaUpdatedEvent.Mk state version')) ioErr w
  ∧ (∀ doc,
       state = Some doc →
       ValueExists doc shadowProperty = true →
       IsNull (GetJsonObject doc shadowProperty) = false →
       ∃ request,
         published
           (world_of (delta (Some (ShadowDeltaUpdatedEvent.Mk state version))
                        ioErr w))
         = (published w ++ [request])%list
         ∧ carried "reported" shadowProperty request
           = Some (JString (GetString doc shadowProperty))
         ∧ carried "desired" shadowProperty request
           = Some (JString (GetString doc shadowProperty))).
Proof.
  split; [reflexivity |].
  intros doc -> Hexists Hnull.
  destruct (delta_value_published
              (ShadowDeltaUpdatedEvent.Mk (Some doc) version) doc w
              eq_refl Hexists Hnull) as (request & Hpub & _ & Hr & Hd).
  exists request. by rewrite Hpub.
Qed.

(** *** [onUpdateShadowAccepted] and [onUpdateShadowRejected] *)

Lemma accepted_run response state reported w :
  UpdateShadowResponse.State response = Some state →
  ShadowState.Reported state = Some reported →
  accepted (Some response) AWS_OP_SUCCESS w
  = Normal tt
      (add_output
         [Stdout ("Finished updating reported shadow value to " +:+
                  GetString reported shadowProperty +:+ "." +:+ LF);
          Stdout ("Enter desired value:" +:+ LF)] w).
Proof.
  destruct response as [state'], state as [reported' desired].
  cbn [UpdateShadowResponse.State ShadowState.Reported].
  intros [= ->] [= ->]. unfold onUpdateShadowAccepted.
  cbn [Z.eqb AWS_OP_SUCCESS]. run_M. by rewrite <- app_assoc.
Qed.

(** Each successful delivery of an accepted response writes its two lines:
    the handler itself does not recognise a response it has seen before. *)
Lemma accepted_twice_prints_twice response state reported w :
  UpdateShadowResponse.State response = Some state →
  ShadowState.Reported state = Some reported →
  ∃ w1 w2,
    accepted (Some response) AWS_OP_SUCCESS w = Normal tt w1
    ∧ accepted (Some response) AWS_OP_SUCCESS w1 = Normal tt w2
    ∧ length (output w2) = (length (output w) + 4)%nat.
Proof.
  intros Hstate Hreported. do 2 eexists.
  split; [by apply accepted_run with state |].
  split; [by apply accepted_run with state |].
  cbn [add_output output]. rewrite !length_app. cbn [length]. lia.
Qed.

(** The two response handlers publish nothing. *)
Lemma accepted_publishes_nothing response ioErr w :
  published (world_of (accepted response ioErr w)) = published w.
Proof.
  unfold onUpdateShadowAccepted.
  destruct (ioErr =? AWS_OP_SUCCESS); [| reflexivity].
  destruct response as [[[[[reported|] desired]|]]|]; reflexivity.
Qed.

Lemma rejected_publishes_nothing error ioErr w :
  published (world_of (rejected error ioErr w)) = published w.
Proof.
  unfold onUpdateShadowRejected.
  destruct (ioErr =? AWS_OP_SUCCESS); [| reflexivity].
  destruct error as [[[message|] [code|]]|]; reflexivity.
Qed.

Lemma world_after {A} (s : Step A) : world (after s) = world_of s.
Proof. by destruct s. Qed.

(** C3, as the code has it: two delta events for the watched property, with
    desired values D1 and then D2, each make a request go out at once, D1
    first and D2 second, whether or not an earlier update is still in
    flight; the accepted or rejected response that resolves an update makes
    no request go out. *)
Theorem deltas_each_publish_at_once e1 e2 s1 s2 w :
  ShadowDeltaUpdatedEvent.State e1 = Some s1 →
  ValueExists s1 shadowProperty = true →
  IsNull (GetJsonObject s1 shadowProperty) = false →
  ShadowDeltaUpdatedEvent.State e2 = Some s2 →
  ValueExists s2 shadowProperty = true →
  IsNull (GetJsonObject s2 shadowProperty) = false →
  ∃ r1 r2 w',
    run thingName shadowProperty
      [DeltaUpdated (Some e1) AWS_OP_SUCCESS;
       DeltaUpdated (Some e2) AWS_OP_SUCCESS] (Running w)
    = Running w'
    ∧ published w' = (published w ++ [r1; r2])%list
    ∧ carried "desired" shadowProperty r1
      = Some (JString (GetString s1 shadowProperty))
    ∧ carried "desired" shadowProperty r2
      = Some (JString (GetString s2 shadowProperty))
    ∧ (∀ response ioErr,
         published
           (world (deliver thingName shadowProperty
                     (UpdateShadowAccepted response ioErr) w'))
         = published w')
    ∧ (∀ error ioErr,
         published
           (world (deliver thingName shadowProperty
                     (UpdateShadowRejected error ioErr) w'))
         = published w').
Proof.
  intros Hs1 He1 Hn1 Hs2 He2 Hn2.
  destruct (delta_value_published e1 s1 w Hs1 He1 Hn1)
    as (r1 & _ & Hrun1 & _ & Hd1).
  set (w1 := after_update
               [line_received; line_desired (GetString s1 shadowProperty);
                line_changing (GetString s1 shadowProperty)] r1 w) in *.
  destruct (delta_value_published e2 s2 w1 Hs2 He2 Hn2)
    as (r2 & _ & Hrun2 & _ & Hd2).
  exists r1, r2. eexists. cbn [run deliver]. rewrite Hrun1. cbn [after run deliver].
  rewrite Hrun2. cbn [after run].
  split; [reflexivity |]. split.
  { cbn [after_update published w1]. by rewrite <- app_assoc. }
  split; [exact Hd1 |]. split; [exact Hd2 |]. split.
  - intros response ioErr. cbn [deliver]. rewrite world_after.
    apply accepted_publishes_nothing.
  - intros error ioErr. cbn [deliver]. rewrite world_after.
    apply rejected_publishes_nothing.
Qed.

(** *** The join on the three subscriptions *)

Lemma change_flags value w : flags (world_of (change value w)) = flags w.
Proof. reflexivity. Qed.

Lemma delta_flags event ioErr w :
  flags (world_of (delta event ioErr w)) = flags w.
Proof.
  unfold onDeltaUpdated, s_changeShadowValue.
  destruct event as [[[state|] version]|]; unfold reports_property; run_M.
  - destruct (ValueExists state shadowProperty); run_M;
      [destruct (IsNull (GetJsonObject state shadowProperty)); run_M |];
      by destruct (ioErr =? 0).
  - by destruct (ioErr =? 0).
  - by destruct (ioErr =? 0).
Qed.

Lemma accepted_flags response ioErr w :
  flags (world_of (accepted response ioErr w)) = flags w.
Proof.
  unfold onUpdateShadowAccepted.
  destruct (ioErr =? AWS_OP_SUCCESS); [| reflexivity].
  destruct response as [[[[[reported|] desired]|]]|]; reflexivity.
Qed.

Lemma rejected_flags error ioErr w :
  flags (world_of (rejected error ioErr w)) = flags w.
Proof.
  unfold onUpdateShadowRejected.
  destruct (ioErr =? AWS_OP_SUCCESS); [| reflexivity].
  destruct error as [[[message|] [code|]]|]; reflexivity.
Qed.

Lemma publishCompleted_flags value ioErr w :
  flags (world_of (publishCompleted thingName value ioErr w)) = flags w.
Proof. unfold publishCompleted. by destruct (ioErr =? AWS_OP_SUCCESS). Qed.

Lemma main_loop_turn_flags input w :
  flags (world_of (main_loop_turn thingName shadowProperty input w)) = flags w.
Proof. unfold main_loop_turn. run_M. by case_decide. Qed.

(** What the three acknowledgement handlers do. *)
Lemma onDeltaUpdatedSubAck_run ioErr w :
  onDeltaUpdatedSubAck ioErr w
  = if ioErr =? AWS_OP_SUCCESS then
      Normal tt
        (MkWorld (output w) (published w) (uuids_drawn w) true
           (subscribeDeltaAccepedCompleted w)
           (subscribeDeltaRejectedCompleted w) (S (notified w)))
    else
      Exit (-1)
        (add_output [Stderr ("Error subscribing to shadow delta: " +:+
                             ErrorDebugString ioErr +:+ LF)] w).
Proof. unfold onDeltaUpdatedSubAck. run_M. by destruct (ioErr =? _). Qed.

Lemma onDeltaUpdatedAcceptedSubAck_run ioErr w :
  onDeltaUpdatedAcceptedSubAck ioErr w
  = if ioErr =? AWS_OP_SUCCESS then
      Normal tt
        (MkWorld (output w) (published w) (uuids_drawn w)
           (subscribeDeltaCompleted w) true
           (subscribeDeltaRejectedCompleted w) (S (notified w)))
    else
      Exit (-1)
        (add_output [Stderr ("Error subscribing to shadow delta accepted: " +:+
                             ErrorDebugString ioErr +:+ LF)] w).
Proof. unfold onDeltaUpdatedAcceptedSubAck. run_M. by destruct (ioErr =? _). Qed.

Lemma onDeltaUpdatedRejectedSubAck_run ioErr w :
  onDeltaUpdatedRejectedSubAck ioErr w
  = Normal tt
      (MkWorld
         (if ioErr =? AWS_OP_SUCCESS then output w
          else (output w ++
                [Stderr ("Error subscribing to shadow delta rejected: " +:+
                         ErrorDebugString ioErr +:+ LF)])%list)
         (published w) (uuids_drawn w)
         (subscribeDeltaCompleted w) (subscribeDeltaAccepedCompleted w)
         true (S (notified w))).
Proof. unfold onDeltaUpdatedRejectedSubAck. run_M. by destruct (ioErr =? _). Qed.

(** A flag that is set after an event was set before it, or the event is
    the acknowledgement that sets it: a successful one for the delta and the
    accepted subscription, any one for the rejected subscription. *)
Lemma deliver_flags e w :
  let w' := world (deliver thingName shadowProperty e w) in
  (subscribeDeltaCompleted w' = true →
     subscribeDeltaCompleted w = true ∨ e = DeltaUpdatedSubAck AWS_OP_SUCCESS)
  ∧ (subscribeDeltaAccepedCompleted w' = true →
       subscribeDeltaAccepedCompleted w = true
       ∨ e = DeltaUpdatedAcceptedSubAck AWS_OP_SUCCESS)
  ∧ (subscribeDeltaRejectedCompleted w' = true →
       subscribeDeltaRejectedCompleted w = true
       ∨ ∃ ioErr, e = DeltaUpdatedRejectedSubAck ioErr).
Proof.
  assert (Hframe : ∀ w', flags w' = flags w →
            (subscribeDeltaCompleted w' = true →
               subscribeDeltaCompleted w = true ∨ e = DeltaUpdatedSubAck AWS_OP_SUCCESS)
            ∧ (subscribeDeltaAccepedCompleted w' = true →
                 subscribeDeltaAccepedCompleted w = true
                 ∨ e = DeltaUpdatedAcceptedSubAck AWS_OP_SUCCESS)
            ∧ (subscribeDeltaRejectedCompleted w' = true →
                 subscribeDeltaRejectedCompleted w = true
                 ∨ ∃ ioErr, e = DeltaUpdatedRejectedSubAck ioErr)).
  { unfold flags. intros w' [= -> -> ->]. auto. }
  destruct e as [ioErr|ioErr|ioErr|event ioErr|response ioErr|error ioErr
                |value ioErr|input]; cbn [deliver]; cbv zeta;
    rewrite ?world_after.
  - rewrite onDeltaUpdatedSubAck_run.
    destruct (Z.eqb_spec ioErr AWS_OP_SUCCESS) as [-> | _];
      cbn [world_of]; [| by apply Hframe].
    cbn [subscribeDeltaCompleted subscribeDeltaAccepedCompleted
         subscribeDeltaRejectedCompleted]. auto.
  - rewrite onDeltaUpdatedAcceptedSubAck_run.
    destruct (Z.eqb_spec ioErr AWS_OP_SUCCESS) as [-> | _];
      cbn [world_of]; [| by apply Hframe].
    cbn [subscribeDeltaCompleted subscribeDeltaAccepedCompleted
         subscribeDeltaRejectedCompleted]. auto.
  - rewrite onDeltaUpdatedRejectedSubAck_run. cbn [world_of].
    cbn [subscribeDeltaCompleted subscribeDeltaAccepedCompleted
         subscribeDeltaRejectedCompleted]. repeat split; eauto.
  - apply Hframe, delta_flags.
  - apply Hframe, accepted_flags.
  - apply Hframe, rejected_flags.
  - apply Hframe, publishCompleted_flags.
  - destruct (subscriptions_completed w); [| by apply Hframe].
    pose proof (main_loop_turn_flags input w) as Hturn.
    destruct (main_loop_turn thingName shadowProperty input w) as [[] w'|c w'|w'];
      by apply Hframe.
Qed.

Lemma run_stopped events p :
  is_running p = false → run thingName shadowProperty events p = p.
Proof. by destruct events, p. Qed.

(** After any run from the start, a set flag means that its acknowledgement
    has arrived. *)
Lemma run_flags events w :
  let w' := world (run thingName shadowProperty events (Running w)) in
  (subscribeDeltaCompleted w' = true →
     subscribeDeltaCompleted w = true
     ∨ DeltaUpdatedSubAck AWS_OP_SUCCESS ∈ events)
  ∧ (subscribeDeltaAccepedCompleted w' = true →
       subscribeDeltaAccepedCompleted w = true
       ∨ DeltaUpdatedAcceptedSubAck AWS_OP_SUCCESS ∈ events)
  ∧ (subscribeDeltaRejectedCompleted w' = true →
       subscribeDeltaRejectedCompleted w = true
       ∨ ∃ ioErr, DeltaUpdatedRejectedSubAck ioErr ∈ events).
Proof.
  revert w. induction events as [|e rest IH]; intros w; cbv zeta.
  { cbn [run world]. auto. }
  cbn [run]. pose proof (deliver_flags e w) as (Hd & Ha & Hr). cbv zeta in *.
  destruct (deliver thingName shadowProperty e w) as [w1|c w1|w1] eqn:Hdel;
    cbn [world] in *.
  - destruct (IH w1) as (IHd & IHa & IHr). cbv zeta in *.
    rewrite !elem_of_cons. split; [| split].
    + intros Hset. destruct (IHd Hset) as [Hw1 | ?]; [| by auto].
      destruct (Hd Hw1) as [? | ->]; auto.
    + intros Hset. destruct (IHa Hset) as [Hw1 | ?]; [| by auto].
      destruct (Ha Hw1) as [? | ->]; auto.
    + intros Hset. destruct (IHr Hset) as [Hw1 | [ioErr Hin]].
      * destruct (Hr Hw1) as [? | [ioErr ->]]; [by left |].
        right. exists ioErr. apply elem_of_cons. by left.
      * right. exists ioErr. apply elem_of_cons. by right.
  - rewrite run_stopped by done. cbn [world]. rewrite !elem_of_cons.
    split; [| split]; intros Hset.
    + destruct (Hd Hset) as [? | ->]; auto.
    + destruct (Ha Hset) as [? | ->]; auto.
    + destruct (Hr Hset) as [? | [ioErr ->]]; [by left |].
      right. exists ioErr. apply elem_of_cons. by left.
  - rewrite run_stopped by done. cbn [world]. rewrite !elem_of_cons.
    split; [| split]; intros Hset.
    + destruct (Hd Hset) as [? | ->]; auto.
    + destruct (Ha Hset) as [? | ->]; auto.
    + destruct (Hr Hset) as [? | [ioErr ->]]; [by left |].
      right. exists ioErr. apply elem_of_cons. by left.
Qed.

(** The wait of [main] is a join: it is only passed when the
    acknowledgements of all three subscriptions have arrived. *)
Lemma join_needs_three_acknowledgements events :
  subscriptions_completed
    (world (run thingName shadowProperty events (Running initial_World))) = true →
  DeltaUpdatedSubAck AWS_OP_SUCCESS ∈ events
  ∧ DeltaUpdatedAcceptedSubAck AWS_OP_SUCCESS ∈ events
  ∧ ∃ ioErr, DeltaUpdatedRejectedSubAck ioErr ∈ events.
Proof.
  unfold subscriptions_completed. rewrite !andb_true_iff. intros [[Hd Ha] Hr].
  destruct (run_flags events initial_World) as (Fd & Fa & Fr). cbv zeta in *.
  destruct (Fd Hd) as [? | ?]; [done |].
  destruct (Fa Ha) as [? | ?]; [done |].
  destruct (Fr Hr) as [? | ?]; [done |]. done.
Qed.

(** Until then [main] takes no turn of its loop. *)
Lemma main_blocked_before_join input w :
  subscriptions_completed w = false →
  deliver thingName shadowProperty (MainLoopTurn input) w = Running w.
Proof. intros Hw. cbn [deliver]. by rewrite Hw. Qed.

(** The order in which three successful acknowledgements arrive does not
    matter. *)
Lemma join_any_order events :
  events ≡ₚ [DeltaUpdatedSubAck AWS_OP_SUCCESS;
             DeltaUpdatedAcceptedSubAck AWS_OP_SUCCESS;
             DeltaUpdatedRejectedSubAck AWS_OP_SUCCESS] →
  run thingName shadowProperty events (Running initial_World)
  = Running (MkWorld [] [] 0 true true true 3).
Proof.
  intros Hperm. symmetry in Hperm. apply permutations_Permutation in Hperm.
  cbn in Hperm.
  repeat (apply elem_of_cons in Hperm as [-> | Hperm]; [reflexivity |]).
  by apply elem_of_nil in Hperm.
Qed.

(** C6, where the code departs from it: with the delta and the accepted
    subscription acknowledged and the rejected subscription failed with
    error 1, the handler of the failure only writes a line and sets its
    flag, so the wait of [main] is passed and the next turn of the loop
    publishes; the same failure of the delta or of the accepted subscription
    ends the process with [exit(-1)]. *)
Theorem failed_rejected_subscription_passes_join :
  let p := run thingName shadowProperty
             [DeltaUpdatedSubAck 0; DeltaUpdatedAcceptedSubAck 0;
              DeltaUpdatedRejectedSubAck 1] (Running initial_World) in
  p = Running
        (MkWorld
           [Stderr ("Error subscribing to shadow delta rejected: " +:+
                    ErrorDebugString 1 +:+ LF)] [] 0 true true true 3)
  ∧ subscriptions_completed (world p) = true
  ∧ length (published
              (world (run thingName shadowProperty [MainLoopTurn "on"] p)))
    = 1%nat
  ∧ is_running (run thingName shadowProperty [DeltaUpdatedSubAck 1]
                  (Running initial_World)) = false
  ∧ is_running (run thingName shadowProperty [DeltaUpdatedAcceptedSubAck 1]
                  (Running initial_World)) = false.
Proof. cbv zeta. repeat split. Qed.

End Sample.

(** *** Runs on concrete documents *)

Lemma onDeltaUpdated_unwatched_ignored_witness :
  let event :=
    ShadowDeltaUpdatedEvent.Mk
      (Some (JObject [("brightness", JString "7")])) (Some 6) in
  @reports_property key_view "color" event = false
  ∧ published
      (world_of (@onDeltaUpdated key_view "thing" "color" (Some event) 0
                   initial_World)) = [].
Proof.
  intros event.
  assert (Hrep : @reports_property key_view "color" event = false)
    by reflexivity.
  destruct (@onDeltaUpdated_unwatched_ignored key_view "thing" "color" event
              initial_World Hrep) as [Hframe _].
  split; [exact Hrep | exact (proj1 (Hframe 0))].
Defined.

Lemma value_view_excludes_null : @CrtReading.ValueExists_excludes_null value_view.
Proof.
  intros doc key. cbn. unfold get_or_null.
  destruct (member key doc) as [x|]; [| done]. cbn.
  by destruct (is_null x).
Qed.

Lemma onDeltaUpdated_null_is_not_reset_witness :
  let state := JObject [("color", JNull)] in
  let event := ShadowDeltaUpdatedEvent.Mk (Some state) (Some 6) in
  @CrtReading.ValueExists_excludes_null value_view
  ∧ @IsNull value_view (@GetJsonObject value_view state "color") = true
  ∧ @onDeltaUpdated value_view "thing" "color" (Some event) 0 initial_World
    = Normal tt
        (add_output
           [Stdout ("Received shadow delta event." +:+ LF);
            Stdout ("Delta did not report a change in " +:+ DQ +:+ "color" +:+
                    DQ +:+ "." +:+ LF)] initial_World)
  ∧ published
      (world_of (@onDeltaUpdated value_view "thing" "color" (Some event) 0
                   initial_World)) = [].
Proof.
  intros state event.
  assert (Hnull : @IsNull value_view (@GetJsonObject value_view state "color")
                  = true) by reflexivity.
  destruct (@onDeltaUpdated_null_is_not_reset value_view "thing" "color" event
              state initial_World value_view_excludes_null eq_refl Hnull)
    as (_ & Hrun & Hpub).
  split; [exact value_view_excludes_null |]. split; [exact Hnull |].
  split; [exact Hrun | exact (Hpub 0)].
Defined.

(** Under the reading in which a null member does not count as existing,
    the same event is not reported and nothing is published for it. *)
Remark value_view_null_not_reported :
  let event :=
    ShadowDeltaUpdatedEvent.Mk (Some (JObject [("color", JNull)])) (Some 6) in
  @reports_property value_view "color" event = false
  ∧ published
      (world_of (@onDeltaUpdated value_view "thing" "color" (Some event) 0
                   initial_World)) = [].
Proof. split; reflexivity. Qed.

Lemma onDeltaUpdated_version_blind_witness :
  let doc := JObject [("color", JString "blue")] in
  @ValueExists key_view doc "color" = true
  ∧ @IsNull key_view (@GetJsonObject key_view doc "color") = false
  ∧ @onDeltaUpdated key_view "thing" "color"
      (Some (ShadowDeltaUpdatedEvent.Mk (Some doc) (Some 3))) 0 initial_World
    = @onDeltaUpdated key_view "thing" "color"
        (Some (ShadowDeltaUpdatedEvent.Mk (Some doc) (Some 5))) 0 initial_World
  ∧ ∃ request,
      published
        (world_of
           (@onDeltaUpdated key_view "thing" "color"
              (Some (ShadowDeltaUpdatedEvent.Mk (Some doc) (Some 3))) 0
              initial_World)) = [request]
      ∧ carried "desired" "color" request = Some (JString "blue").
Proof.
  intros doc.
  assert (Hexists : @ValueExists key_view doc "color" = true) by reflexivity.
  assert (Hnull : @IsNull key_view (@GetJsonObject key_view doc "color") = false)
    by reflexivity.
  destruct (@onDeltaUpdated_version_blind key_view "thing" "color" (Some doc)
              (Some 3) (Some 5) 0 initial_World) as [Hsame Hpub].
  destruct (Hpub doc eq_refl Hexists Hnull) as (request & Hreq & _ & Hd).
  split; [exact Hexists |]. split; [exact Hnull |]. split; [exact Hsame |].
  exists request. split; [exact Hreq | exact Hd].
Defined.

(** C2 as stated fails: after a delta event of version 5, an event of
    version 5 and one of version 3 each make a request go out and change the
    world. *)
Lemma stale_delta_is_acted_on :
  let deliver_all := @run key_view "thing" "color" in
  let seen := deliver_all [delta_event "color" "red" 5] (Running initial_World) in
  let stale := [delta_event "color" "blue" 5; delta_event "color" "green" 3] in
  event_version <$> stale = [Some 5; Some 3]
  ∧ carried "desired" "color" <$> published_since seen (deliver_all stale seen)
    = [Some (JString "blue"); Some (JString "green")]
  ∧ world (deliver_all stale seen) ≠ world seen.
Proof. cbv zeta. split; [reflexivity |]. split; [reflexivity | discriminate]. Qed.

Lemma deltas_each_publish_at_once_witness :
  let s1 := JObject [("color", JString "D1")] in
  let s2 := JObject [("color", JString "D2")] in
  let e1 := ShadowDeltaUpdatedEvent.Mk (Some s1) (Some 7) in
  let e2 := ShadowDeltaUpdatedEvent.Mk (Some s2) (Some 8) in
  (@ValueExists key_view s1 "color" = true
   ∧ @IsNull key_view (@GetJsonObject key_view s1 "color") = false
   ∧ @ValueExists key_view s2 "color" = true
   ∧ @IsNull key_view (@GetJsonObject key_view s2 "color") = false)
  ∧ ∃ r1 r2 w',
      @run key_view "thing" "color"
        [DeltaUpdated (Some e1) 0; DeltaUpdated (Some e2) 0]
        (Running initial_World) = Running w'
      ∧ published w' = [r1; r2]
      ∧ carried "desired" "color" r1 = Some (JString "D1")
      ∧ carried "desired" "color" r2 = Some (JString "D2").
Proof.
  intros s1 s2 e1 e2.
  assert (Hhyp : @ValueExists key_view s1 "color" = true
                 ∧ @IsNull key_view (@GetJsonObject key_view s1 "color") = false
                 ∧ @ValueExists key_view s2 "color" = true
                 ∧ @IsNull key_view (@GetJsonObject key_view s2 "color") = false)
    by (repeat split; reflexivity).
  split; [exact Hhyp |].
  destruct Hhyp as (He1 & Hn1 & He2 & Hn2).
  destruct (@deltas_each_publish_at_once key_view "thing" "color" e1 e2 s1 s2
              initial_World eq_refl He1 Hn1 eq_refl He2 Hn2)
    as (r1 & r2 & w' & Hrun & Hpub & Hd1 & Hd2 & _).
  exists r1, r2, w'. split; [exact Hrun |]. split; [exact Hpub |].
  split; [exact Hd1 | exact Hd2].
Defined.

(** C3 as stated fails: with the update for D0 in flight, the events for D1
    and D2 make two requests go out at once, the one for D1 included, and
    the accepted response that resolves the first update makes none go
    out. *)
Lemma converging_deltas_are_not_coalesced :
  let deliver_all := @run key_view "thing" "color" in
  let response :=
    UpdateShadowResponse.Mk
      (Some (ShadowState.Mk (Some (JObject [("color", JString "D0")])) None)) in
  let converging :=
    deliver_all [delta_event "color" "D0" 6] (Running initial_World) in
  let arrived :=
    deliver_all [delta_event "color" "D1" 7; delta_event "color" "D2" 8]
      converging in
  let resolved :=
    deliver_all [UpdateShadowAccepted (Some response) 0] arrived in
  length (published (world converging)) = 1%nat
  ∧ carried "desired" "color" <$> published_since converging arrived
    = [Some (JString "D1"); Some (JString "D2")]
  ∧ published_since arrived resolved = [].
Proof. cbv zeta. repeat split. Qed.

End ShadowSyncSpec.

(* --------------------------------------------------------------------- *)
(** ** More on the job status names                                       *)
(* --------------------------------------------------------------------- *)

Module JobStatusMore.
Import JobStatusMarshaller JobStatusSpec.

(** X1: [ToString] gives distinct statuses distinct names. *)
Theorem ToString_injective (s s' : JobStatus) :
  ToString s = ToString s' ↔ s = s'.
Proof.
  split; [| by intros ->].
  destruct s, s'; (reflexivity || discriminate).
Qed.

Section WithHash.

Variable HashString : string → Z.

Abbreviation hashes := (status_hashes HashString).
Abbreviation parse := (FromString HashString).
Abbreviation hash_of s := (HashString (ToString s)).

Lemma status_hashes_fmap : hashes = (λ s, hash_of s) <$> all_statuses.
Proof. reflexivity. Qed.

Lemma all_statuses_index s : ∃ i, all_statuses !! i = Some s.
Proof.
  destruct s; [by exists 0%nat | by exists 1%nat | by exists 2%nat
              | by exists 3%nat | by exists 4%nat | by exists 5%nat
              | by exists 6%nat].
Qed.

Lemma all_statuses_index_unique i j s :
  all_statuses !! i = Some s → all_statuses !! j = Some s → i = j.
Proof.
  intros Hi Hj.
  do 7 (destruct i as [|i]; [do 7 (destruct j as [|j]; [by simplify_eq/= |]);
                            by simplify_eq/= |]).
  by simplify_eq/=.
Qed.

(** The result of the parse depends on the string through its hash only. *)
Lemma FromString_hash_only str str' :
  HashString str = HashString str' → parse str = parse str'.
Proof. intros Heq. unfold FromString. by rewrite Heq. Qed.

Lemma FromString_returned_first str s :
  parse str = Returned s →
  ∃ i, all_statuses !! i = Some s
       ∧ hash_of s = HashString str
       ∧ ∀ j s', (j < i)%nat → all_statuses !! j = Some s' →
                 hash_of s' ≠ HashString str.
Proof.
  unfold FromString. cbv zeta.
  repeat
    match goal with
    | |- context [HashString str =? ?c] =>
        destruct (Z.eqb_spec (HashString str) c)
    end;
    intros [= <-];
    [exists 0%nat | exists 1%nat | exists 2%nat | exists 3%nat
    | exists 4%nat | exists 5%nat | exists 6%nat];
    (split; [reflexivity |]); (split; [done |]);
    intros j s' Hlt Hj;
    unfold QUEUED_HASH, IN_PROGRESS_HASH, FAILED_HASH, SUCCESS_HASH,
      CANCELED_HASH, REJECTED_HASH, REMOVED_HASH in *;
    do 7 (destruct j as [|j]; [simplify_eq/=; congruence || lia |]); lia.
Qed.

(** X2: [FromString] returns a status exactly when that status is the first
    one, in the order of the tests, whose hash constant equals the hash of
    the string. *)
Theorem FromString_first_match (str : string) (s : JobStatus) :
  parse str = Returned s
  ↔ ∃ i, all_statuses !! i = Some s
         ∧ hash_of s = HashString str
         ∧ ∀ j s', (j < i)%nat → all_statuses !! j = Some s' →
                   hash_of s' ≠ HashString str.
Proof.
  split; [apply FromString_returned_first |].
  intros (i & Hi & Hhash & Hfirst).
  assert (Hin : HashString str ∈ hashes)
    by (rewrite <- Hhash; apply status_hashes_lookup).
  destruct (FromString_hit HashString str Hin) as (s0 & Hparse & Hhash0).
  rewrite Hparse. f_equal.
  destruct (FromString_returned_first str s0 Hparse) as (i0 & Hi0 & _ & Hfirst0).
  destruct (lt_eq_lt_dec i0 i) as [[Hlt | ->] | Hlt].
  - by destruct (Hfirst i0 s0 Hlt Hi0).
  - congruence.
  - by destruct (Hfirst0 i s Hlt Hi).
Qed.

(** X3: the round trip [FromString (ToString s) = s] holds for all seven
    statuses exactly when the seven hash constants are pairwise distinct. *)
Theorem round_trip_iff_distinct_hashes :
  (∀ s, parse (ToString s) = Returned s) ↔ NoDup hashes.
Proof.
  split; [| intros Hnodup s; by apply FromString_ToString].
  intros Hround. apply NoDup_alt. intros i j x.
  rewrite status_hashes_fmap, !list_lookup_fmap.
  destruct (all_statuses !! i) as [si|] eqn:Hi; [| done].
  destruct (all_statuses !! j) as [sj|] eqn:Hj; [| done].
  cbn. intros [= Hx] [= Hy].
  assert (Hsame : hash_of si = hash_of sj) by congruence.
  destruct (FromString_returned_first _ _ (Hround si)) as (i' & Hi' & _ & Hfi).
  destruct (FromString_returned_first _ _ (Hround sj)) as (j' & Hj' & _ & Hfj).
  rewrite (all_statuses_index_unique _ _ _ Hi' Hi) in Hfi.
  rewrite (all_statuses_index_unique _ _ _ Hj' Hj) in Hfj.
  destruct (lt_eq_lt_dec i j) as [[Hlt | ->] | Hlt]; [| done |].
  - by destruct (Hfj i si Hlt Hi).
  - by destruct (Hfi j sj Hlt Hj).
Qed.

(** X4: matching is by hash alone: with distinct hash constants, every
    string whose hash is that of a status name is parsed as that status,
    whether or not it is the name. *)
Theorem FromString_accepts_collisions (str : string) (s : JobStatus) :
  NoDup hashes →
  HashString str = hash_of s →
  parse str = Returned s.
Proof.
  intros Hnodup Hcollide.
  rewrite (FromString_hash_only _ _ Hcollide).
  by apply FromString_ToString.
Qed.

End WithHash.

Lemma FromString_accepts_collisions_witness :
  NoDup (status_hashes HashExamples.prefix_hash)
  ∧ HashExamples.prefix_hash "QUEUE" = HashExamples.prefix_hash (ToString QUEUED)
  ∧ ("QUEUE" ∉ recognized_names)
  ∧ FromString HashExamples.prefix_hash "QUEUE" = Returned QUEUED.
Proof.
  assert (Hnodup : NoDup (status_hashes HashExamples.prefix_hash))
    by (apply (bool_decide_unpack _); vm_compute; exact I).
  assert (Hcollide : HashExamples.prefix_hash "QUEUE"
                     = HashExamples.prefix_hash (ToString QUEUED))
    by reflexivity.
  split; [exact Hnodup |]. split; [exact Hcollide |]. split.
  - apply (bool_decide_unpack _). vm_compute. exact I.
  - exact (FromString_accepts_collisions HashExamples.prefix_hash "QUEUE" QUEUED
             Hnodup Hcollide).
Defined.

End JobStatusMore.

(* --------------------------------------------------------------------- *)
(** ** What [FromString] does on every string                             *)
(* --------------------------------------------------------------------- *)

Module JobStatusParse.
Import JobStatusMarshaller JobStatusSpec JobStatusMore.

Section WithHash.

Variable HashString : string → Z.

Abbreviation hashes := (status_hashes HashString).
Abbreviation parse := (FromString HashString).
Abbreviation hash_of s := (HashString (ToString s)).



End WithHash.

End JobStatusParse.

(* --------------------------------------------------------------------- *)
(** ** Command-line options                                               *)
(* --------------------------------------------------------------------- *)

Module CommandLineSpec.
Import ShadowSync CommandLine.
Local Open Scope list_scope.

Lemma std_find_le argv name : (std_find argv name ≤ length argv)%nat.
Proof.
  induction argv as [|arg rest IH]; simpl; [lia |].
  case_decide; simpl; lia.
Qed.

(** Where [std::find] stops: at the first occurrence. *)
Lemma std_find_first pre post name :
  name ∉ pre → std_find (pre ++ name :: post) name = length pre.
Proof.
  induction pre as [|arg pre IH]; simpl; intros Hpre.
  - by rewrite decide_True.
  - apply not_elem_of_cons in Hpre as [Hne Hpre].
    rewrite decide_False by done. by rewrite IH.
Qed.

Lemma std_find_found argv name :
  std_find argv name ≠ length argv →
  ∃ pre post, argv = pre ++ name :: post ∧ name ∉ pre.
Proof.
  induction argv as [|arg rest IH]; simpl; [done |].
  case_decide as Harg.
  - intros _. exists [], rest. subst. split; [done | apply not_elem_of_nil].
  - intros Hne. destruct IH as (pre & post & -> & Hpre); [lia |].
    exists (arg :: pre), post. split; [done |].
    apply not_elem_of_cons. split; [congruence | done].
Qed.

Lemma std_find_absent argv name :
  name ∉ argv → std_find argv name = length argv.
Proof.
  induction argv as [|arg rest IH]; simpl; [done |].
  intros Hnot. apply not_elem_of_cons in Hnot as [Hne Hnot].
  rewrite decide_False by done. by rewrite IH.
Qed.

Lemma s_cmdOptionExists_elem_of argv name :
  s_cmdOptionExists argv name = true ↔ name ∈ argv.
Proof.
  unfold s_cmdOptionExists. rewrite bool_decide_eq_true. split.
  - intros Hne. destruct (std_find_found _ _ Hne) as (pre & post & -> & _).
    apply elem_of_app. right. apply elem_of_cons. by left.
  - intros Hin Heq. apply list_elem_of_split_l in Hin as (pre & post & -> & Hpre).
    rewrite std_find_first in Heq by done. rewrite length_app in Heq.
    simpl in Heq. lia.
Qed.

(** X5: [s_getCmdOption] returns the argument that follows the first
    occurrence of the option, and the null pointer in every other case. *)
Theorem s_getCmdOption_follows_first (argv : list string) (name v : string) :
  s_getCmdOption argv name = Some v
  ↔ ∃ pre post, argv = pre ++ name :: v :: post ∧ name ∉ pre.
Proof.
  unfold s_getCmdOption. cbv zeta. split.
  - destruct (bool_decide_reflect (std_find argv name ≠ length argv))
      as [Hfound|]; [| done].
    destruct (std_find_found _ _ Hfound) as (pre & post & -> & Hpre).
    rewrite std_find_first by done.
    destruct (bool_decide (S (length pre) ≠ length (pre ++ name :: post)));
      [| done].
    cbn [andb].
    replace (S (length pre)) with (length pre + 1)%nat by lia.
    rewrite lookup_app_r by lia.
    replace (length pre + 1 - length pre)%nat with 1%nat by lia.
    destruct post as [|v' post]; [done |]. cbn. intros [= ->].
    by exists pre, post.
  - intros (pre & post & -> & Hpre). rewrite std_find_first by done.
    rewrite !bool_decide_eq_true_2
      by (rewrite length_app; cbn [length]; lia).
    cbn [andb].
    replace (S (length pre)) with (length pre + 1)%nat by lia.
    rewrite lookup_app_r by lia.
    by replace (length pre + 1 - length pre)%nat with 1%nat by lia.
Qed.

(** X6: an option can exist without a value: [s_cmdOptionExists] holds and
    [s_getCmdOption] still returns the null pointer exactly when the first
    occurrence of the option is the last argument. *)
Theorem option_without_value (argv : list string) (name : string) :
  s_cmdOptionExists argv name = true ∧ s_getCmdOption argv name = None
  ↔ ∃ pre, argv = pre ++ [name] ∧ name ∉ pre.
Proof.
  split.
  - intros [Hexists Hnone]. unfold s_cmdOptionExists in Hexists.
    apply bool_decide_eq_true in Hexists.
    destruct (std_find_found _ _ Hexists) as (pre & post & -> & Hpre).
    destruct post as [|v post]; [by exists pre |].
    assert (Hsome : s_getCmdOption (pre ++ name :: v :: post) name = Some v).
    { unfold s_getCmdOption. cbv zeta. rewrite std_find_first by done.
      rewrite !bool_decide_eq_true_2
        by (rewrite length_app; cbn [length]; lia).
      cbn [andb].
      replace (S (length pre)) with (length pre + 1)%nat by lia.
      rewrite lookup_app_r by lia.
      by replace (length pre + 1 - length pre)%nat with 1%nat by lia. }
    congruence.
  - intros (pre & -> & Hpre). split.
    + apply s_cmdOptionExists_elem_of, elem_of_app. right.
      apply elem_of_cons. by left.
    + unfold s_getCmdOption. cbv zeta. rewrite std_find_first by done.
      rewrite (bool_decide_eq_false_2 (S (length pre) ≠ _))
        by (rewrite length_app; cbn [length]; lia).
      by rewrite andb_false_r.
Qed.

(** The five tests of [main], taken together. *)
Lemma required_options_present argv :
  s_cmdOptionExists argv "--endpoint" && s_cmdOptionExists argv "--cert" &&
  s_cmdOptionExists argv "--key" && s_cmdOptionExists argv "--thing_name" &&
  s_cmdOptionExists argv "--shadow_property" = true
  ↔ ∀ name, name ∈ required_options → name ∈ argv.
Proof.
  rewrite !andb_true_iff, !s_cmdOptionExists_elem_of. unfold required_options.
  split.
  - intros [[[[? ?] ?] ?] ?] name Hname.
    repeat (apply elem_of_cons in Hname as [-> | Hname]; [done |]).
    by apply elem_of_nil in Hname.
  - intros Hall. repeat split; apply Hall;
      repeat (first [by apply list_elem_of_here | apply list_elem_of_further]).
Qed.

Lemma required_option_missing argv :
  s_cmdOptionExists argv "--endpoint" && s_cmdOptionExists argv "--cert" &&
  s_cmdOptionExists argv "--key" && s_cmdOptionExists argv "--thing_name" &&
  s_cmdOptionExists argv "--shadow_property" = false
  ↔ ∃ name, name ∈ required_options ∧ name ∉ argv.
Proof.
  rewrite <- not_true_iff_false, required_options_present. split.
  - intros Hnot.
    assert (Hex : Exists (λ name, name ∉ argv) required_options).
    { apply not_Forall_Exists; [apply _ |].
      intros Hall. apply Hnot. by apply Forall_forall. }
    apply Exists_exists in Hex as (name & Hname & Hmissing). by exists name.
  - intros (name & Hname & Hmissing) Hall. by apply Hmissing, Hall.
Qed.

(** X7: the argument section of [main] writes the help exactly when one of
    the five required options is missing; when it fills the variables, each
    holds the argument after the first occurrence of its option and the CA
    file is empty unless [--ca_file] is given; and with all required
    options there, a [String] is assigned the null pointer exactly when a
    required option, or a [--ca_file] that is there, is the last argument
    at its first occurrence. *)
Theorem main_arguments_outcome (argv : list string) :
  (main_arguments argv = HelpPrinted s_printHelp
   ↔ ∃ name, name ∈ required_options ∧ name ∉ argv)
  ∧ (∀ a, main_arguments argv = Filled a →
       s_getCmdOption argv "--endpoint" = Some (endpoint a)
       ∧ s_getCmdOption argv "--cert" = Some (certificatePath a)
       ∧ s_getCmdOption argv "--key" = Some (keyPath a)
       ∧ s_getCmdOption argv "--thing_name" = Some (thingName a)
       ∧ s_getCmdOption argv "--shadow_property" = Some (shadowProperty a)
       ∧ (s_getCmdOption argv "--ca_file" = Some (caFile a)
          ∨ ("--ca_file" ∉ argv) ∧ caFile a = ""))
  ∧ (main_arguments argv = NullAssigned
     ↔ (∀ name, name ∈ required_options → name ∈ argv)
       ∧ ∃ name, name ∈ "--ca_file" :: required_options
                 ∧ name ∈ argv ∧ s_getCmdOption argv name = None).
Proof.
  unfold main_arguments.
  destruct (s_cmdOptionExists argv "--endpoint" &&
            s_cmdOptionExists argv "--cert" &&
            s_cmdOptionExists argv "--key" &&
            s_cmdOptionExists argv "--thing_name" &&
            s_cmdOptionExists argv "--shadow_property") eqn:Hall; cbn [negb].
  - pose proof (proj1 (required_options_present argv) Hall) as Hpresent.
    split; [| split].
    + split; [repeat case_match; discriminate |].
      intros (name & Hname & Hmissing). destruct (Hmissing (Hpresent name Hname)).
    + intros a.
      destruct (s_cmdOptionExists argv "--ca_file") eqn:Hca;
        repeat case_match; try discriminate; intros [= <-]; cbn;
        repeat split; auto.
      right. split; [| done].
      intros Hthere. apply s_cmdOptionExists_elem_of in Hthere. congruence.
    + split.
      * intros Hnull. split; [exact Hpresent |].
        destruct (s_getCmdOption argv "--endpoint") eqn:H1;
          [| exists "--endpoint"; split;
             [apply list_elem_of_further, list_elem_of_here
             | split; [apply Hpresent, list_elem_of_here | done]]].
        destruct (s_getCmdOption argv "--cert") eqn:H2;
          [| exists "--cert"; split;
             [do 2 apply list_elem_of_further; apply list_elem_of_here
             | split; [apply Hpresent, list_elem_of_further, list_elem_of_here
                      | done]]].
        destruct (s_getCmdOption argv "--key") eqn:H3;
          [| exists "--key"; split;
             [do 3 apply list_elem_of_further; apply list_elem_of_here
             | split; [apply Hpresent; do 2 apply list_elem_of_further;
                       apply list_elem_of_here | done]]].
        destruct (s_getCmdOption argv "--thing_name") eqn:H4;
          [| exists "--thing_name"; split;
             [do 4 apply list_elem_of_further; apply list_elem_of_here
             | split; [apply Hpresent; do 3 apply list_elem_of_further;
                       apply list_elem_of_here | done]]].
        destruct (s_getCmdOption argv "--shadow_property") eqn:H5;
          [| exists "--shadow_property"; split;
             [do 5 apply list_elem_of_further; apply list_elem_of_here
             | split; [apply Hpresent; do 4 apply list_elem_of_further;
                       apply list_elem_of_here | done]]].
        destruct (s_cmdOptionExists argv "--ca_file") eqn:Hca; [| done].
        destruct (s_getCmdOption argv "--ca_file") eqn:H6; [done |].
        exists "--ca_file". split; [apply list_elem_of_here |].
        split; [by apply s_cmdOptionExists_elem_of | done].
      * intros (_ & name & Hname & Hthere & Hnone).
        apply s_cmdOptionExists_elem_of in Hthere.
        unfold required_options in Hname.
        repeat (apply elem_of_cons in Hname as [-> | Hname];
                [rewrite ?Hthere, Hnone; by repeat case_match |]).
        by apply elem_of_nil in Hname.
  - split; [| split].
    + split; [intros _; by apply required_option_missing | done].
    + intros a. discriminate.
    + split; [discriminate |].
      intros [Hpresent _]. apply required_options_present in Hpresent.
      congruence.
Qed.

Lemma main_arguments_outcome_witness :
  let argv := ["shadow-sync"; "--endpoint"; "host"; "--cert"; "c.pem";
               "--key"; "k.pem"; "--thing_name"; "lamp";
               "--shadow_property"; "color"] in
  main_arguments argv
  = Filled (MkArguments "host" "c.pem" "k.pem" "" "lamp" "color")
  ∧ s_getCmdOption argv "--shadow_property" = Some "color"
  ∧ ("--ca_file" ∉ argv).
Proof.
  intros argv.
  assert (Hfilled : main_arguments argv
                    = Filled (MkArguments "host" "c.pem" "k.pem" "" "lamp" "color"))
    by reflexivity.
  destruct (main_arguments_outcome argv) as (_ & Hvalues & _).
  destruct (Hvalues _ Hfilled) as (_ & _ & _ & _ & Hproperty & Hca).
  split; [exact Hfilled |]. split; [exact Hproperty |].
  destruct Hca as [Hca | [Hca _]]; [discriminate Hca | exact Hca].
Defined.

End CommandLineSpec.

(* --------------------------------------------------------------------- *)
(** ** Runs of the shadow-sync sample                                     *)
(* --------------------------------------------------------------------- *)

Module ShadowSyncRuns.
Import Json JsonLemmas ShadowSync ShadowSyncSpec.
Local Open Scope list_scope.
#[local] Set Warnings "-clear-no-such-hyp".

Section Sample.

Context `{Crt}.
Variables thingName shadowProperty : string.

Abbreviation change := (s_changeShadowValue thingName shadowProperty).
Abbreviation delta := (onDeltaUpdated thingName shadowProperty).
Abbreviation accepted := (onUpdateShadowAccepted shadowProperty).
Abbreviation rejected := (onUpdateShadowRejected).
Abbreviation reports := (reports_property shadowProperty).
Abbreviation handle := (deliver thingName shadowProperty).
Abbreviation runs := (run thingName shadowProperty).

Abbreviation built := (RunShape.built thingName shadowProperty).
Abbreviation grows := (RunShape.grows thingName shadowProperty).

Lemma grows_flags w o out f1 f2 f3 n :
  o = output w ++ out →
  (subscribeDeltaCompleted w = true → f1 = true) →
  (subscribeDeltaAccepedCompleted w = true → f2 = true) →
  (subscribeDeltaRejectedCompleted w = true → f3 = true) →
  (notified w ≤ n)%nat →
  grows w (MkWorld o (published w) (uuids_drawn w) f1 f2 f3 n).
Proof.
  intros ->. intros. exists out, []. cbn. rewrite app_nil_r, Nat.add_0_r.
  repeat split; auto.
Qed.

(** Closes a goal [grows w w'] in which [w'] only differs from [w] in its
    output, its notifications or a flag that has been set. *)
Ltac grows_by_flags :=
  eapply grows_flags;
  [first [rewrite <- ?app_assoc; reflexivity | symmetry; apply app_nil_r]
  | auto ..].

Lemma grows_refl w : grows w w.
Proof.
  exists [], []. rewrite !app_nil_r, Nat.add_0_r. repeat split; auto.
Qed.

Lemma grows_add_output w w1 lines :
  grows w w1 → grows w (add_output lines w1).
Proof.
  intros (out & news & Ho & Hp & Hu & Hn & Hd & Ha & Hr & Hk).
  exists (out ++ lines), news. cbn.
  rewrite Ho, app_assoc. repeat split; auto.
Qed.

Lemma grows_after_update w lines value :
  grows w (after_update lines (built (uuids_drawn w) value) w).
Proof.
  exists lines, [built (uuids_drawn w) value]. cbn.
  repeat split; eauto. lia.
Qed.

Lemma change_explicit value w :
  change value w
  = Normal tt
      (after_update
         [Stdout ("Changing local shadow value to " +:+ value +:+ "." +:+ LF)]
         (built (uuids_drawn w) value) w).
Proof. unfold s_changeShadowValue. run_M. reflexivity. Qed.

(** The body of [onDeltaUpdated] before the check of [ioErr]: it writes, or
    it writes and publishes one request. *)
Lemma delta_cases event ioErr w :
  ∃ w1,
    delta event ioErr w
    = when (negb (ioErr =? 0))
        (fprintf Stdout ("Error processing shadow delta: " +:+
                         ErrorDebugString ioErr +:+ LF) ;;
         exit (-1)) w1
    ∧ ((∃ lines, w1 = add_output lines w)
       ∨ ∃ lines value,
           w1 = after_update lines (built (uuids_drawn w) value) w
           ∧ ∃ e, event = Some e ∧ reports e = true).
Proof.
  unfold onDeltaUpdated.
  destruct event as [[[state|] version]|]; unfold reports_property;
    cbn [ShadowDeltaUpdatedEvent.State].
  - destruct (ValueExists state shadowProperty) eqn:Hexists.
    + destruct (IsNull (GetJsonObject state shadowProperty)) eqn:Hnull.
      * eexists. split.
        { unfold s_changeShadowValue. run_M. rewrite Hnull. run_M.
          rewrite <- !app_assoc. reflexivity. }
        right. do 2 eexists. split; [reflexivity |]. eexists. split; [done |].
        exact Hexists.
      * eexists. split.
        { unfold s_changeShadowValue. run_M. rewrite Hnull. run_M.
          rewrite <- !app_assoc. reflexivity. }
        right. do 2 eexists. split; [reflexivity |]. eexists. split; [done |].
        exact Hexists.
    + eexists. split.
      { run_M. rewrite <- !app_assoc. reflexivity. }
      left. eexists. reflexivity.
  - eexists. split.
    { run_M. rewrite <- !app_assoc. reflexivity. }
    left. eexists. reflexivity.
  - exists w. split; [reflexivity |]. left. exists []. unfold add_output.
    rewrite app_nil_r. by destruct w.
Qed.

Lemma check_ioErr_cases ioErr w1 :
  when (negb (ioErr =? 0))
    (fprintf Stdout ("Error processing shadow delta: " +:+
                     ErrorDebugString ioErr +:+ LF) ;;
     exit (-1)) w1
  = if ioErr =? 0 then Normal tt w1
    else Exit (-1)
           (add_output [Stdout ("Error processing shadow delta: " +:+
                                ErrorDebugString ioErr +:+ LF)] w1).
Proof. run_M. by destruct (ioErr =? 0). Qed.

Lemma main_turn_explicit input w :
  handle (MainLoopTurn input) w
  = if subscriptions_completed w then
      if decide (input = "exit" ∨ input = "quit") then
        Terminated 0
          (add_output
             [Stdout ("Enter Desired state of " +:+ shadowProperty +:+ ":" +:+ LF);
              Stdout "Exiting..."] w)
      else
        Running
          (after_update
             [Stdout ("Enter Desired state of " +:+ shadowProperty +:+ ":" +:+ LF);
              Stdout ("Changing local shadow value to " +:+ input +:+ "." +:+ LF)]
             (built (uuids_drawn w) input) w)
    else Running w.
Proof.
  cbn [deliver]. destruct (subscriptions_completed w); [| reflexivity].
  unfold main_loop_turn, s_changeShadowValue. run_M.
  case_decide; run_M; by rewrite <- !app_assoc.
Qed.

(** Every event changes the world in the way of [grows]. *)
Lemma deliver_grows e w : grows w (world (handle e w)).
Proof.
  destruct e as [ioErr|ioErr|ioErr|event ioErr|response ioErr|error ioErr
                |value ioErr|input].
  - cbn [deliver]. rewrite world_after, onDeltaUpdatedSubAck_run.
    destruct (ioErr =? AWS_OP_SUCCESS); cbn [world_of];
      [grows_by_flags | apply grows_add_output, grows_refl].
  - cbn [deliver]. rewrite world_after, onDeltaUpdatedAcceptedSubAck_run.
    destruct (ioErr =? AWS_OP_SUCCESS); cbn [world_of];
      [grows_by_flags | apply grows_add_output, grows_refl].
  - cbn [deliver]. rewrite world_after, onDeltaUpdatedRejectedSubAck_run.
    cbn [world_of]. destruct (ioErr =? AWS_OP_SUCCESS); grows_by_flags.
  - cbn [deliver]. rewrite world_after.
    destruct (delta_cases event ioErr w) as (w1 & -> & Hw1).
    assert (Hgrows : grows w w1).
    { destruct Hw1 as [[lines ->] | (lines & value & -> & _)];
        [apply grows_add_output, grows_refl | apply grows_after_update]. }
    rewrite check_ioErr_cases. destruct (ioErr =? 0); cbn [world_of];
      [done | by apply grows_add_output].
  - cbn [deliver]. rewrite world_after. unfold onUpdateShadowAccepted.
    destruct (ioErr =? AWS_OP_SUCCESS);
      [destruct response as [[[[[reported|] desired]|]]|] |];
      run_M; first [apply grows_refl | grows_by_flags].
  - cbn [deliver]. rewrite world_after. unfold onUpdateShadowRejected.
    destruct (ioErr =? AWS_OP_SUCCESS);
      [destruct error as [[[message|] [code|]]|] |];
      run_M; first [apply grows_refl | grows_by_flags].
  - cbn [deliver]. rewrite world_after. unfold publishCompleted.
    destruct (ioErr =? AWS_OP_SUCCESS); run_M; grows_by_flags.
  - rewrite main_turn_explicit.
    destruct (subscriptions_completed w); [| apply grows_refl].
    case_decide; cbn [world];
      [apply grows_add_output, grows_refl | apply grows_after_update].
Qed.

(** A property of worlds that every event preserves holds after every
    run. *)
Lemma run_invariant (P : World → Prop) events w :
  (∀ e w, P w → P (world (handle e w))) →
  P w → P (world (runs events (Running w))).
Proof.
  intros Hstep. revert w. induction events as [|e rest IH]; intros w Hw.
  { exact Hw. }
  cbn [run]. specialize (Hstep e w Hw).
  destruct (handle e w) as [w1|c w1|w1]; cbn [world] in Hstep.
  - by apply IH.
  - by rewrite run_stopped.
  - by rewrite run_stopped.
Qed.


(** X9: every request that a run from the start publishes names the thing
    and carries one and the same string for the watched property under
    [reported] and under [desired]. *)
Theorem every_published_request_mirrors (events : list Event)
    (request : UpdateShadowRequest.t) :
  request ∈ published (world (runs events (Running initial_World))) →
  ∃ value,
    carried "reported" shadowProperty request = Some (JString value)
    ∧ carried "desired" shadowProperty request = Some (JString value)
    ∧ UpdateShadowRequest.ThingName request = Some thingName.
Proof.
  revert request.
  apply (run_invariant
           (λ w, ∀ request, request ∈ published w →
              ∃ value,
                carried "reported" shadowProperty request = Some (JString value)
                ∧ carried "desired" shadowProperty request = Some (JString value)
                ∧ UpdateShadowRequest.ThingName request = Some thingName)).
  - intros e w Hw request.
    destruct (deliver_grows e w) as (lines & news & _ & -> & _ & Hnews & _).
    intros [Hold | Hnew]%elem_of_app; [by apply Hw |].
    destruct Hnews as [-> | [value ->]]; [by apply elem_of_nil in Hnew |].
    apply list_elem_of_singleton in Hnew as ->. exists value.
    split; [apply carried_mirror; by left |].
    split; [apply carried_mirror; by right | reflexivity].
  - intros request Hin. by apply elem_of_nil in Hin.
Qed.

(** X10: a run never takes anything back: the lines written and the
    requests published before it are a prefix of those after it, and the
    counts of UUIDs drawn and of notifications do not decrease. *)
Theorem run_only_appends (events : list Event) (w : World) :
  let w' := world (runs events (Running w)) in
  output w `prefix_of` output w'
  ∧ published w `prefix_of` published w'
  ∧ (uuids_drawn w ≤ uuids_drawn w')%nat
  ∧ (notified w ≤ notified w')%nat.
Proof.
  apply (run_invariant
           (λ w', output w `prefix_of` output w'
                  ∧ published w `prefix_of` published w'
                  ∧ (uuids_drawn w ≤ uuids_drawn w')%nat
                  ∧ (notified w ≤ notified w')%nat)).
  - intros e w1 (Ho & Hp & Hu & Hn).
    destruct (deliver_grows e w1)
      as (lines & news & -> & -> & -> & _ & _ & _ & _ & Hk).
    split; [by apply prefix_app_r |]. split; [by apply prefix_app_r |]. lia.
  - done.
Qed.

Lemma run_keeps_flags events w :
  let w' := world (runs events (Running w)) in
  (subscribeDeltaCompleted w = true → subscribeDeltaCompleted w' = true)
  ∧ (subscribeDeltaAccepedCompleted w = true →
       subscribeDeltaAccepedCompleted w' = true)
  ∧ (subscribeDeltaRejectedCompleted w = true →
       subscribeDeltaRejectedCompleted w' = true).
Proof.
  apply (run_invariant
           (λ w', (subscribeDeltaCompleted w = true →
                     subscribeDeltaCompleted w' = true)
                  ∧ (subscribeDeltaAccepedCompleted w = true →
                       subscribeDeltaAccepedCompleted w' = true)
                  ∧ (subscribeDeltaRejectedCompleted w = true →
                       subscribeDeltaRejectedCompleted w' = true))).
  - intros e w1 (Hd & Ha & Hr).
    destruct (deliver_grows e w1)
      as (lines & news & _ & _ & _ & _ & Hd1 & Ha1 & Hr1 & _).
    repeat split; auto.
  - auto.
Qed.

(** X11: no event clears a subscription flag: once the wait of [main] on
    the three subscriptions can be passed, it can be passed after every
    further run. *)
Theorem join_stays_passed (events : list Event) (w : World) :
  subscriptions_completed w = true →
  subscriptions_completed (world (runs events (Running w))) = true.
Proof.
  unfold subscriptions_completed. rewrite !andb_true_iff.
  intros [[Hd Ha] Hr].
  destruct (run_keeps_flags events w) as (Kd & Ka & Kr). cbv zeta in *. auto.
Qed.

Lemma run_app l1 l2 p : runs (l1 ++ l2) p = runs l2 (runs l1 p).
Proof.
  revert p. induction l1 as [|e l1 IH]; intros p; [by destruct p |].
  destruct p as [w|c w|w]; cbn [app run]; [apply IH | |];
    by rewrite !run_stopped.
Qed.

Lemma run_running_before events p :
  is_running (runs events p) = true → is_running p = true.
Proof. destruct p; [done | |]; by rewrite run_stopped. Qed.

(** An event of a run that is still running at its end has been delivered
    to a running process and has left it running. *)
Lemma run_delivered pre e post w :
  is_running (runs (pre ++ e :: post) (Running w)) = true →
  ∃ w1 w2,
    runs pre (Running w) = Running w1
    ∧ handle e w1 = Running w2
    ∧ runs (pre ++ e :: post) (Running w) = runs post (Running w2).
Proof.
  rewrite run_app. intros Hend.
  pose proof (run_running_before _ _ Hend) as Hpre.
  destruct (runs pre (Running w)) as [w1| |] eqn:Hw1; [| done | done].
  cbn [run] in *.
  pose proof (run_running_before _ _ Hend) as He.
  destruct (handle e w1) as [w2| |] eqn:Hw2; [| done | done].
  by exists w1, w2.
Qed.

(** X12: for a run from the start that is still running at its end, the
    wait of [main] on the three subscriptions can be passed exactly when the
    run contains a successful acknowledgement of the delta subscription, a
    successful one of the accepted subscription and an acknowledgement,
    successful or not, of the rejected subscription. *)
Theorem join_passed_iff (events : list Event) :
  is_running (runs events (Running initial_World)) = true →
  (subscriptions_completed (world (runs events (Running initial_World))) = true
   ↔ DeltaUpdatedSubAck AWS_OP_SUCCESS ∈ events
     ∧ DeltaUpdatedAcceptedSubAck AWS_OP_SUCCESS ∈ events
     ∧ ∃ ioErr, DeltaUpdatedRejectedSubAck ioErr ∈ events).
Proof.
  intros Hend. split; [apply join_needs_three_acknowledgements |].
  intros (Hd & Ha & ioErr & Hr).
  unfold subscriptions_completed. rewrite !andb_true_iff.
  split; [split |].
  - apply list_elem_of_split in Hd as (pre & post & ->).
    destruct (run_delivered _ _ _ _ Hend) as (w1 & w2 & _ & Hw2 & ->).
    apply (run_keeps_flags post w2). cbn [deliver] in Hw2.
    rewrite onDeltaUpdatedSubAck_run in Hw2. by injection Hw2 as <-.
  - apply list_elem_of_split in Ha as (pre & post & ->).
    destruct (run_delivered _ _ _ _ Hend) as (w1 & w2 & _ & Hw2 & ->).
    apply (run_keeps_flags post w2). cbn [deliver] in Hw2.
    rewrite onDeltaUpdatedAcceptedSubAck_run in Hw2. by injection Hw2 as <-.
  - apply list_elem_of_split in Hr as (pre & post & ->).
    destruct (run_delivered _ _ _ _ Hend) as (w1 & w2 & _ & Hw2 & ->).
    apply (run_keeps_flags post w2). cbn [deliver] in Hw2.
    rewrite onDeltaUpdatedRejectedSubAck_run in Hw2. by injection Hw2 as <-.
Qed.

(** X13: [onDeltaUpdated] never dereferences what is not there: whatever
    the event, also a null one or one without state, it returns when
    [ioErr] is 0 and calls [exit(-1)] when it is not, and the world it
    leaves differs from the one it found by lines written and at most one
    request published. *)
Theorem onDeltaUpdated_never_undefined
    (event : option ShadowDeltaUpdatedEvent.t) (ioErr : Z) (w : World) :
  ∃ w',
    delta event ioErr w
    = (if ioErr =? 0 then Normal tt w' else Exit (-1) w')
    ∧ grows w w'.
Proof.
  destruct (delta_cases event ioErr w) as (w1 & -> & Hw1).
  assert (Hgrows : grows w w1).
  { destruct Hw1 as [[lines ->] | (lines & value & -> & _)];
      [apply grows_add_output, grows_refl | apply grows_after_update]. }
  rewrite check_ioErr_cases. destruct (ioErr =? 0).
  - by exists w1.
  - eexists. split; [reflexivity |]. by apply grows_add_output.
Qed.

Lemma accepted_explicit response ioErr w :
  accepted response ioErr w
  = if ioErr =? AWS_OP_SUCCESS then
      match (response ≫= UpdateShadowResponse.State) ≫= ShadowState.Reported with
      | Some reported =>
          Normal tt
            (add_output
               [Stdout ("Finished updating reported shadow value to " +:+
                        GetString reported shadowProperty +:+ "." +:+ LF);
                Stdout ("Enter desired value:" +:+ LF)] w)
      | None => Undefined w
      end
    else
      Exit (-1)
        (add_output [Stderr ("Error on subscription: " +:+
                             ErrorDebugString ioErr +:+ "." +:+ LF)] w).
Proof.
  unfold onUpdateShadowAccepted.
  destruct (ioErr =? AWS_OP_SUCCESS); [| reflexivity].
  destruct response as [[[[[reported|] desired]|]]|]; cbn; run_M;
    rewrite <- ?app_assoc; reflexivity.
Qed.

(** X14: [onUpdateShadowAccepted] returns exactly when [ioErr] is 0 and the
    response has a state with a reported part; it calls [exit(-1)] exactly
    when [ioErr] is not 0; with [ioErr] 0 and the response, its state or the
    reported part missing it dereferences what is not there.  It never
    publishes and never touches a flag. *)
Theorem onUpdateShadowAccepted_outcome
    (response : option UpdateShadowResponse.t) (ioErr : Z) (w : World) :
  let result := accepted response ioErr w in
  let reported :=
    (response ≫= UpdateShadowResponse.State) ≫= ShadowState.Reported in
  ((∃ w', result = Normal tt w') ↔ ioErr = 0 ∧ is_Some reported)
  ∧ ((∃ w', result = Exit (-1) w') ↔ ioErr ≠ 0)
  ∧ (result = Undefined w ↔ ioErr = 0 ∧ reported = None)
  ∧ published (world_of result) = published w
  ∧ flags (world_of result) = flags w.
Proof.
  cbv zeta. rewrite accepted_explicit.
  destruct (Z.eqb_spec ioErr AWS_OP_SUCCESS) as [-> | Hne];
    [destruct ((response ≫= UpdateShadowResponse.State) ≫= ShadowState.Reported)
       as [reported|] |];
    unfold is_Some; repeat split; first [done | naive_solver].
Qed.

Lemma rejected_explicit error ioErr w :
  rejected error ioErr w
  = if ioErr =? AWS_OP_SUCCESS then
      match error ≫= ErrorResponse.Message, error ≫= ErrorResponse.Code with
      | Some message, Some code =>
          Normal tt
            (add_output
               [Stdout ("Update of shadow state failed with message " +:+
                        message +:+ " and code " +:+ pretty code +:+ ".")] w)
      | _, _ => Undefined w
      end
    else
      Exit (-1)
        (add_output [Stderr ("Error on subscription: " +:+
                             ErrorDebugString ioErr +:+ "." +:+ LF)] w).
Proof.
  unfold onUpdateShadowRejected.
  destruct (ioErr =? AWS_OP_SUCCESS); [| reflexivity].
  destruct error as [[[message|] [code|]]|]; reflexivity.
Qed.

(** X15: [onUpdateShadowRejected] returns exactly when [ioErr] is 0 and the
    error has a message and a code, having written one line; it calls
    [exit(-1)] exactly when [ioErr] is not 0; with [ioErr] 0 and the error,
    its message or its code missing it dereferences what is not there.  It
    publishes nothing, so a rejected update is not sent again. *)
Theorem onUpdateShadowRejected_outcome
    (error : option ErrorResponse.t) (ioErr : Z) (w : World) :
  let result := rejected error ioErr w in
  let message := error ≫= ErrorResponse.Message in
  let code := error ≫= ErrorResponse.Code in
  ((∃ w', result = Normal tt w') ↔ ioErr = 0 ∧ is_Some message ∧ is_Some code)
  ∧ ((∃ w', result = Exit (-1) w') ↔ ioErr ≠ 0)
  ∧ (result = Undefined w ↔ ioErr = 0 ∧ (message = None ∨ code = None))
  ∧ published (world_of result) = published w
  ∧ flags (world_of result) = flags w.
Proof.
  cbv zeta. rewrite rejected_explicit.
  destruct (Z.eqb_spec ioErr AWS_OP_SUCCESS) as [-> | Hne];
    [destruct (error ≫= ErrorResponse.Message) as [message|],
              (error ≫= ErrorResponse.Code) as [code|] |];
    unfold is_Some; repeat split; first [done | naive_solver].
Qed.

(** X16: once the three subscriptions are completed, a turn of the loop
    of [main] on the word [exit] or [quit] ends the process with code 0 and
    publishes nothing; on every other word, the empty one included, it
    publishes exactly one request that carries the word for the watched
    property under [reported] and under [desired], and the process goes
    on. *)
Theorem main_loop_turn_outcome (input : string) (w : World) :
  subscriptions_completed w = true →
  (input = "exit" ∨ input = "quit" →
     ∃ w', handle (MainLoopTurn input) w = Terminated 0 w'
           ∧ published w' = published w)
  ∧ (¬ (input = "exit" ∨ input = "quit") →
       ∃ request w',
         handle (MainLoopTurn input) w = Running w'
         ∧ published w' = published w ++ [request]
         ∧ carried "reported" shadowProperty request = Some (JString input)
         ∧ carried "desired" shadowProperty request = Some (JString input)).
Proof.
  intros Hjoin. rewrite main_turn_explicit, Hjoin. split; intros Hword.
  - rewrite decide_True by done. eexists. split; reflexivity.
  - rewrite decide_False by done. do 2 eexists.
    split; [reflexivity |]. split; [reflexivity |].
    split; [apply carried_mirror; by left | apply carried_mirror; by right].
Qed.

(** X17: only two events publish: a delta event that reports the watched
    property, and a turn of the loop of [main] after the join on a word
    other than [exit] and [quit].  Acknowledgements, accepted and rejected
    responses and completions of a publish leave the published requests as
    they are. *)
Theorem only_deltas_and_turns_publish (e : Event) (w : World) :
  published (world (handle e w)) ≠ published w →
  (∃ event ioErr, e = DeltaUpdated (Some event) ioErr ∧ reports event = true)
  ∨ (∃ input, e = MainLoopTurn input
              ∧ subscriptions_completed w = true
              ∧ ¬ (input = "exit" ∨ input = "quit")).
Proof.
  destruct e as [ioErr|ioErr|ioErr|event ioErr|response ioErr|error ioErr
                |value ioErr|input].
  - cbn [deliver]. rewrite world_after, onDeltaUpdatedSubAck_run.
    by destruct (ioErr =? AWS_OP_SUCCESS).
  - cbn [deliver]. rewrite world_after, onDeltaUpdatedAcceptedSubAck_run.
    by destruct (ioErr =? AWS_OP_SUCCESS).
  - cbn [deliver]. by rewrite world_after, onDeltaUpdatedRejectedSubAck_run.
  - cbn [deliver]. rewrite world_after.
    destruct (delta_cases event ioErr w) as (w1 & -> & Hw1).
    rewrite check_ioErr_cases.
    destruct Hw1 as [[lines ->] | (lines & value & -> & ev & -> & Hrep)].
    + by destruct (ioErr =? 0).
    + intros _. left. by exists ev, ioErr.
  - cbn [deliver]. rewrite world_after. by rewrite accepted_publishes_nothing.
  - cbn [deliver]. rewrite world_after. by rewrite rejected_publishes_nothing.
  - cbn [deliver]. rewrite world_after. unfold publishCompleted.
    by destruct (ioErr =? AWS_OP_SUCCESS).
  - rewrite main_turn_explicit.
    destruct (subscriptions_completed w); [| done].
    case_decide as Hword; [done |]. intros _. right. by exists input.
Qed.

End Sample.

(** *** Runs on concrete documents *)

Lemma every_published_request_mirrors_witness :
  let events :=
    [DeltaUpdatedSubAck 0; delta_event "color" "red" 6;
     delta_event "color" "blue" 7] in
  let w := world (@run key_view "lamp" "color" events (Running initial_World)) in
  length (published w) = 2%nat
  ∧ ∀ request, request ∈ published w →
      ∃ value,
        carried "reported" "color" request = Some (JString value)
        ∧ carried "desired" "color" request = Some (JString value)
        ∧ UpdateShadowRequest.ThingName request = Some "lamp".
Proof.
  intros events w. split; [reflexivity |].
  intros request Hin.
  exact (@every_published_request_mirrors key_view "lamp" "color" events
           request Hin).
Defined.


Lemma join_stays_passed_witness :
  let w := MkWorld [] [] 0 true true true 3 in
  subscriptions_completed w = true
  ∧ subscriptions_completed
      (world (@run key_view "lamp" "color"
                [delta_event "color" "red" 6; MainLoopTurn "quit"]
                (Running w))) = true.
Proof.
  intros w.
  assert (Hjoin : subscriptions_completed w = true) by reflexivity.
  split; [exact Hjoin |].
  exact (@join_stays_passed key_view "lamp" "color"
           [delta_event "color" "red" 6; MainLoopTurn "quit"] w Hjoin).
Defined.

Lemma join_passed_iff_witness :
  let events :=
    [DeltaUpdatedRejectedSubAck 0; delta_event "color" "red" 6;
     DeltaUpdatedSubAck 0; DeltaUpdatedAcceptedSubAck 0] in
  is_running (@run key_view "lamp" "color" events (Running initial_World)) = true
  ∧ subscriptions_completed
      (world (@run key_view "lamp" "color" events (Running initial_World)))
    = true.
Proof.
  intros events.
  assert (Hend : is_running (@run key_view "lamp" "color" events
                               (Running initial_World)) = true)
    by reflexivity.
  split; [exact Hend |].
  apply (@join_passed_iff key_view "lamp" "color" events Hend).
  split; [| split; [| exists 0]];
    repeat (first [by apply list_elem_of_here | apply list_elem_of_further]).
Defined.

Lemma main_loop_turn_outcome_witness :
  let w := MkWorld [] [] 0 true true true 3 in
  subscriptions_completed w = true
  ∧ (∃ w', @deliver key_view "lamp" "color" (MainLoopTurn "quit") w
           = Terminated 0 w' ∧ published w' = [])
  ∧ ∃ request w',
      @deliver key_view "lamp" "color" (MainLoopTurn "green") w = Running w'
      ∧ published w' = [request]
      ∧ carried "reported" "color" request = Some (JString "green")
      ∧ carried "desired" "color" request = Some (JString "green").
Proof.
  intros w.
  assert (Hjoin : subscriptions_completed w = true) by reflexivity.
  split; [exact Hjoin |]. split.
  - apply (@main_loop_turn_outcome key_view "lamp" "color" "quit" w Hjoin).
    by right.
  - apply (@main_loop_turn_outcome key_view "lamp" "color" "green" w Hjoin).
    intros [Hword | Hword]; discriminate Hword.
Defined.

Lemma only_deltas_and_turns_publish_witness :
  let e := delta_event "color" "red" 6 in
  published (world (@deliver key_view "lamp" "color" e initial_World))
  ≠ published initial_World
  ∧ ∃ event ioErr,
      e = DeltaUpdated (Some event) ioErr
      ∧ @reports_property key_view "color" event = true.
Proof.
  intros e.
  assert (Hchanged :
    published (world (@deliver key_view "lamp" "color" e initial_World))
    ≠ published initial_World) by discriminate.
  split; [exact Hchanged |].
  destruct (@only_deltas_and_turns_publish key_view "lamp" "color" e
              initial_World Hchanged)
    as [Hdelta | (input & Hturn & _)]; [exact Hdelta | discriminate Hturn].
Defined.

End ShadowSyncRuns.

(* --------------------------------------------------------------------- *)
(** ** Connecting                                                         *)
(* --------------------------------------------------------------------- *)

Module ConnectingSpec.
Import ShadowSync Connecting.
Local Open Scope list_scope.

Section Callbacks.

Context `{Crt}.

Lemma onConnectionCompleted_failed errorCode returnCode connectionState c :
  errorCode ≠ 0 →
  onConnectionCompleted errorCode returnCode connectionState c
  = MkConnection false (connectionClosed c) true
      (written c ++ [Stdout ("Connection failed with error " +:+
                             ErrorDebugString errorCode +:+ LF)])
      (S (woken c)).
Proof.
  intros Hne. apply Z.eqb_neq in Hne. unfold onConnectionCompleted.
  by rewrite Hne.
Qed.

(** X18: a connect that completes with an error does not release [main]:
    after any number of failed completions, and no disconnect, the
    predicate of the wait that follows [Connect] is still false, although
    [connectionCompleted] has been set and the condition variable has been
    notified once per completion. *)
Theorem failed_connect_keeps_main_waiting
    (events : list ConnectionEvent) (c : Connection) :
  connected_or_closed c = false →
  Forall (λ e, is_failed_completion e = true) events →
  let c' := connection_run events c in
  connected_or_closed c' = false
  ∧ woken c' = (woken c + length events)%nat
  ∧ (events ≠ [] → connectionCompleted c' = true).
Proof.
  intros Hc Hfailed. revert c Hc.
  induction Hfailed as [|e rest He _ IH]; intros c Hc; cbv zeta.
  { cbn. split; [done |]. split; [lia | done]. }
  destruct e as [errorCode returnCode connectionState|]; [| done].
  cbn in He. apply negb_true_iff, Z.eqb_neq in He.
  unfold connection_run. cbn [foldl connection_step].
  rewrite (onConnectionCompleted_failed _ _ _ _ He).
  unfold connected_or_closed in Hc. apply orb_false_iff in Hc as [_ Hclosed].
  destruct (IH (MkConnection false (connectionClosed c) true
                  (written c ++ [Stdout ("Connection failed with error " +:+
                                         ErrorDebugString errorCode +:+ LF)])
                  (S (woken c)))) as (Hwait & Hwoken & Hcompleted).
  { unfold connected_or_closed. cbn. exact Hclosed. }
  unfold connection_run in *. cbv zeta in *.
  split; [exact Hwait |]. split; [rewrite Hwoken; cbn; lia |].
  intros _. destruct rest as [|e' rest']; [reflexivity |].
  by apply Hcompleted.
Qed.

End Callbacks.

Lemma failed_connect_keeps_main_waiting_witness :
  let events := [ConnectionCompleted 1049 0 0; ConnectionCompleted 1049 0 0] in
  connected_or_closed initial_Connection = false
  ∧ Forall (λ e, is_failed_completion e = true) events
  ∧ connected_or_closed (@connection_run key_view events initial_Connection)
    = false
  ∧ connectionCompleted (@connection_run key_view events initial_Connection)
    = true.
Proof.
  intros events.
  assert (Hstart : connected_or_closed initial_Connection = false)
    by reflexivity.
  assert (Hfailed : Forall (λ e, is_failed_completion e = true) events)
    by (repeat constructor).
  destruct (@failed_connect_keeps_main_waiting key_view events
              initial_Connection Hstart Hfailed) as (Hwait & _ & Hcompleted).
  split; [exact Hstart |]. split; [exact Hfailed |].
  split; [exact Hwait | by apply Hcompleted].
Defined.

End ConnectingSpec.

(* --------------------------------------------------------------------- *)
(** ** The describe-job-execution sample                                  *)
(* --------------------------------------------------------------------- *)

Module DescribeJobExecutionSpec.
Import ShadowSync JobStatusMarshaller DescribeJobExecution.
Local Open Scope list_scope.
#[local] Set Warnings "-clear-no-such-hyp".

Section Handlers.

Variable UUID_ToString : UUID → string.

Abbreviation on_response := (subscriptionHandler UUID_ToString).

Lemma subscriptionHandler_error response ioErr c :
  ioErr ≠ 0 →
  on_response response ioErr c
  = Some (MkConsole
            (printed c ++
             [Stderr ("Error " +:+ pretty ioErr +:+ " occurred" +:+ LF)])
            (S (wakeups c))).
Proof.
  intros Hne. apply Z.eqb_neq in Hne. unfold subscriptionHandler.
  by rewrite Hne.
Qed.

Lemma subscriptionHandler_success response c :
  on_response response 0 c
  = r ← response ;
    execution ← DescribeJobExecutionResponse.Execution r ;
    jobId ← JobExecutionData.JobId execution ;
    token ← DescribeJobExecutionResponse.ClientToken r ;
    status ← JobExecutionData.Status execution ;
    Some (MkConsole
            (printed c ++
             [Stdout ("Received Job:" +:+ LF);
              Stdout ("Job Id: " +:+ jobId +:+ LF);
              Stdout ("ClientToken: " +:+ UUID_ToString token +:+ LF);
              Stdout ("Execution Status: " +:+ ToString status +:+ LF)])
            (S (wakeups c))).
Proof.
  unfold subscriptionHandler. cbn [Z.eqb negb].
  destruct response as [[[execution|] [token|]]|]; try reflexivity;
    destruct execution as [[jobId|] ? ? [status|] ? ? ? ? ?];
    cbn; unfold print, wake; cbn; rewrite <- ?app_assoc; reflexivity.
Qed.

(** X19: [subscriptionHandler] of the describe-job-execution sample, when
    it is given an error, writes one line, notifies and does not look at the
    response; without an error it is defined exactly when the response is
    there with its execution, job id, client token and status, and it then
    writes four lines, the last of which names the status by [ToString].
    Whenever it is defined it notifies the condition variable exactly
    once. *)
Theorem subscriptionHandler_outcome
    (response : option DescribeJobExecutionResponse.t) (ioErr : Z)
    (c : Console) :
  (ioErr ≠ 0 →
     on_response response ioErr c
     = Some (MkConsole
               (printed c ++
                [Stderr ("Error " +:+ pretty ioErr +:+ " occurred" +:+ LF)])
               (S (wakeups c))))
  ∧ (ioErr = 0 →
       ∀ c', on_response response ioErr c = Some c'
             ↔ ∃ r execution jobId token status,
                 response = Some r
                 ∧ DescribeJobExecutionResponse.Execution r = Some execution
                 ∧ JobExecutionData.JobId execution = Some jobId
                 ∧ DescribeJobExecutionResponse.ClientToken r = Some token
                 ∧ JobExecutionData.Status execution = Some status
                 ∧ c' = MkConsole
                          (printed c ++
                           [Stdout ("Received Job:" +:+ LF);
                            Stdout ("Job Id: " +:+ jobId +:+ LF);
                            Stdout ("ClientToken: " +:+ UUID_ToString token
                                    +:+ LF);
                            Stdout ("Execution Status: " +:+ ToString status
                                    +:+ LF)])
                          (S (wakeups c)))
  ∧ (∀ c', on_response response ioErr c = Some c' →
           wakeups c' = S (wakeups c)).
Proof.
  split; [apply subscriptionHandler_error |].
  assert (Hsuccess : ioErr = 0 →
    ∀ c', on_response response ioErr c = Some c'
          ↔ ∃ r execution jobId token status,
              response = Some r
              ∧ DescribeJobExecutionResponse.Execution r = Some execution
              ∧ JobExecutionData.JobId execution = Some jobId
              ∧ DescribeJobExecutionResponse.ClientToken r = Some token
              ∧ JobExecutionData.Status execution = Some status
              ∧ c' = MkConsole
                       (printed c ++
                        [Stdout ("Received Job:" +:+ LF);
                         Stdout ("Job Id: " +:+ jobId +:+ LF);
                         Stdout ("ClientToken: " +:+ UUID_ToString token
                                 +:+ LF);
                         Stdout ("Execution Status: " +:+ ToString status
                                 +:+ LF)])
                       (S (wakeups c))).
  { intros -> c'. rewrite subscriptionHandler_success. split.
    - intros Hsome.
      destruct response as [r|]; [| done]. cbn in Hsome.
      destruct (DescribeJobExecutionResponse.Execution r) as [execution|] eqn:He;
        [| done]. cbn in Hsome.
      destruct (JobExecutionData.JobId execution) as [jobId|] eqn:Hj;
        [| done]. cbn in Hsome.
      destruct (DescribeJobExecutionResponse.ClientToken r) as [token|] eqn:Ht;
        [| done]. cbn in Hsome.
      destruct (JobExecutionData.Status execution) as [status|] eqn:Hs;
        [| done]. cbn in Hsome. injection Hsome as <-.
      by exists r, execution, jobId, token, status.
    - intros (r & execution & jobId & token & status
              & -> & He & Hj & Ht & Hs & ->).
      cbn. rewrite He. cbn. rewrite Hj. cbn. rewrite Ht. cbn. rewrite Hs.
      reflexivity. }
  split; [exact Hsuccess |].
  intros c' Hsome. destruct (Z.eq_dec ioErr 0) as [Hzero | Hne].
  - apply (Hsuccess Hzero) in Hsome
      as (r & execution & jobId & token & status & _ & _ & _ & _ & _ & ->).
    reflexivity.
  - rewrite subscriptionHandler_error in Hsome by done.
    by injection Hsome as <-.
Qed.

End Handlers.

Lemma subscriptionHandler_outcome_witness :
  let to_string := λ u : UUID, match u with MkUUID bits => pretty bits end in
  let execution :=
    JobExecutionData.Mk (Some "job-7") (Some "lamp") None (Some IN_PROGRESS)
      None None None (Some 3) (Some 1) in
  let response :=
    DescribeJobExecutionResponse.Mk (Some execution) (Some (MkUUID 5)) in
  subscriptionHandler to_string (Some response) 0 (MkConsole [] 0)
  = Some (MkConsole
            [Stdout ("Received Job:" +:+ LF);
             Stdout ("Job Id: job-7" +:+ LF);
             Stdout ("ClientToken: 5" +:+ LF);
             Stdout ("Execution Status: IN_PROGRESS" +:+ LF)] 1)
  ∧ subscriptionHandler to_string None 0 (MkConsole [] 0) = None
  ∧ wakeups <$> subscriptionHandler to_string None 7 (MkConsole [] 0) = Some 1%nat.
Proof.
  intros to_string execution response.
  destruct (subscriptionHandler_outcome to_string (Some response) 0
              (MkConsole [] 0)) as (_ & Hsuccess & _).
  destruct (subscriptionHandler_outcome to_string None 7 (MkConsole [] 0))
    as (Herror & _ & _).
  split; [| split].
  - apply (Hsuccess eq_refl).
    exists response, execution, "job-7", (MkUUID 5), IN_PROGRESS.
    repeat split; reflexivity.
  - reflexivity.
  - rewrite Herror by discriminate. reflexivity.
Defined.

End DescribeJobExecutionSpec.
